(** * mockfirestore: the in-memory document store of [mockfirestore/main.py]

    A shallow embedding of the store, the document and collection handles
    and the query engine, followed by the properties of the specification.

    Python passes every [dict] by reference, and the source relies on it
    ([DocumentReference.update] mutates the mapping found at a path, a
    snapshot keeps the mapping it was built from).  Mappings therefore live
    in a heap of objects and values hold references to them.

    Scope of the value universe: [None], [bool], [int], [str] and references
    to [dict] objects with [str] keys, as the annotations of the source
    declare ([Document = Dict[str, Any]]).  Floats, lists and caller-supplied
    [OrderedDict]s are not modelled. *)

From Stdlib Require Import ZArith List Bool Ascii String Lia.
From Stdlib Require Import OrderedTypeEx Permutation Sorted.
From stdpp Require Import base option list gmap strings.

Local Open Scope Z_scope.
Local Open Scope string_scope.
Local Open Scope list_scope.

(** ** Exceptions and results *)

(** The exceptions the modelled code can raise.  [AlreadyExists] is the
    repository's own (or google.cloud's); the others are Python built-ins.
    [OutsideAnnotations] is raised by the model only, where a run-time value
    breaks the annotations of the source in a way the typed model cannot
    follow: [add] reading from [data['id']] a [None], a [bool] or an [int],
    which the code goes on to use as a key of the collection's mapping. *)
Inductive exn : Type :=
  | KeyError
  | TypeError
  | AttributeError
  | IndexError
  | ValueError
  | AlreadyExists
  | OutsideAnnotations.

Inductive result (A : Type) : Type :=
  | Ok (a : A)
  | Err (e : exn).
Arguments Ok {A} a.
Arguments Err {A} e.

#[global] Instance result_ret : MRet result := fun _ a => Ok a.
#[global] Instance result_bind : MBind result := fun _ _ f r =>
  match r with
  | Ok a => f a
  | Err e => Err e
  end.

(** ** Values, mappings and the heap *)

Abbreviation loc := nat.

Inductive atom : Type :=
  | ANone
  | ABool (b : bool)
  | AInt (n : Z)
  | AStr (s : string).

Inductive value : Type :=
  | VAtom (a : atom)
  | VRef (l : loc).

(** A [dict] with [str] keys: the items in insertion order, keys unique. *)
Abbreviation pydict := (list (string * value)).

Abbreviation heap := (gmap loc pydict).

Module Dict.

Fixpoint get (k : string) (d : pydict) : option value :=
  match d with
  | [] => None
  | (k', v) :: d' => if String.eqb k k' then Some v else get k d'
  end.

Definition contains (k : string) (d : pydict) : bool :=
  match get k d with Some _ => true | None => false end.

(** [d[k] = v]: an existing key keeps its position, a new key goes last. *)
Fixpoint setitem (k : string) (v : value) (d : pydict) : pydict :=
  match d with
  | [] => [(k, v)]
  | (k', v') :: d' =>
      if String.eqb k k' then (k, v) :: d' else (k', v') :: setitem k v d'
  end.

(** [del d[k]]; [None] stands for the [KeyError] of a missing key. *)
Fixpoint delitem (k : string) (d : pydict) : option pydict :=
  match d with
  | [] => None
  | (k', v') :: d' =>
      if String.eqb k k' then Some d'
      else match delitem k d' with
           | Some r => Some ((k', v') :: r)
           | None => None
           end
  end.

(** [d.update(other)] with [other] a mapping: its items are stored into
    [d] one by one, in [other]'s order. *)
Definition update (d other : pydict) : pydict :=
  fold_left (fun acc kv => setitem (fst kv) (snd kv) acc) other d.

(** [OrderedDict(pairs)]. *)
Definition of_items (items : list (string * value)) : pydict :=
  update [] items.

Definition keys (d : pydict) : list string := map fst d.

Definition wf (d : pydict) : Prop := NoDup (keys d).

End Dict.

(** Reading the mapping behind a reference.  A running program holds live
    references only; a location outside the heap reads as the empty mapping. *)
Definition deref (h : heap) (l : loc) : pydict := default [] (h !! l).

(** ** Python's comparisons on the modelled values *)

(** [bool] is a subclass of [int]: [True == 1], [False < 1]. *)
Definition as_int (a : atom) : option Z :=
  match a with
  | ABool b => Some (Z.b2z b)
  | AInt n => Some n
  | _ => None
  end.

Definition atom_eq (x y : atom) : bool :=
  match x, y with
  | ANone, ANone => true
  | AStr s, AStr t => String.eqb s t
  | _, _ =>
      match as_int x, as_int y with
      | Some m, Some n => Z.eqb m n
      | _, _ => false
      end
  end.

(** An ordering comparison between two atoms: defined between numbers and
    between strings, a [TypeError] otherwise ([None < None] included). *)
Definition atom_order (znum : Z -> Z -> bool) (zstr : comparison -> bool)
    (x y : atom) : result bool :=
  match x, y with
  | AStr s, AStr t => Ok (zstr (String.compare s t))
  | _, _ =>
      match as_int x, as_int y with
      | Some m, Some n => Ok (znum m n)
      | _, _ => Err TypeError
      end
  end.

Definition is_Lt (c : comparison) : bool := match c with Lt => true | _ => false end.
Definition is_Gt (c : comparison) : bool := match c with Gt => true | _ => false end.

Definition atom_lt : atom -> atom -> result bool := atom_order Z.ltb is_Lt.
Definition atom_le : atom -> atom -> result bool := atom_order Z.leb (fun c => negb (is_Gt c)).
Definition atom_gt : atom -> atom -> result bool := atom_order Z.gtb is_Gt.
Definition atom_ge : atom -> atom -> result bool := atom_order Z.geb (fun c => negb (is_Lt c)).

(** [x == y] with [y] an atom: a [dict] never equals an atom. *)
Definition val_eq (x : value) (y : atom) : bool :=
  match x with
  | VAtom a => atom_eq a y
  | VRef _ => false
  end.

(** A [dict] supports no ordering comparison. *)
Definition val_order (cmp : atom -> atom -> result bool) (x y : value) : result bool :=
  match x, y with
  | VAtom a, VAtom b => cmp a b
  | _, _ => Err TypeError
  end.

Definition val_lt : value -> value -> result bool := val_order atom_lt.

(** ** Item access on arbitrary values *)

(** [operator.getitem(obj, k)] with [k] a [str]. *)
Definition getitem (h : heap) (obj : value) (k : string) : result value :=
  match obj with
  | VRef l =>
      match Dict.get k (deref h l) with
      | Some v => Ok v
      | None => Err KeyError
      end
  | VAtom _ => Err TypeError
  end.

(** [k in obj] with [k] a [str]: key membership on a mapping, substring
    test on a [str], a [TypeError] on the other atoms. *)
Definition contains (h : heap) (obj : value) (k : string) : result bool :=
  match obj with
  | VRef l => Ok (Dict.contains k (deref h l))
  | VAtom (AStr s) =>
      Ok (match String.index 0 k s with Some _ => true | None => false end)
  | VAtom _ => Err TypeError
  end.

(** [functools.reduce(f, l, init)] for an [f] that may raise. *)
Fixpoint reduce {A B} (f : A -> B -> result A) (l : list B) (init : A) : result A :=
  match l with
  | [] => Ok init
  | b :: l' =>
      match f init b with
      | Ok a => reduce f l' a
      | Err e => Err e
      end
  end.

(** ** The world: heap, source of randomness *)

(** [rand i] is the [i]-th draw of the random generator, [drawn] the number
    of draws made so far. *)
Record world : Type := World {
  objects : gmap loc pydict;
  rand : nat -> nat;
  drawn : nat
}.

(** Computations that read and write the world and may raise; the world
    survives an exception. *)
Definition M (A : Type) : Type := world -> result A * world.

#[global] Instance M_ret : MRet M := fun _ a w => (Ok a, w).
#[global] Instance M_bind : MBind M := fun _ _ f m w =>
  match m w with
  | (Ok a, w') => f a w'
  | (Err e, w') => (Err e, w')
  end.

Definition raise {A} (e : exn) : M A := fun w => (Err e, w).

(** A computation that only reads the heap. *)
Definition reading {A} (f : heap -> result A) : M A :=
  fun w => (f (objects w), w).

Definition with_objects (h : heap) (w : world) : world :=
  World h (rand w) (drawn w).

(** Evaluating a [dict] display ([{}], [{'a': 1}]): a new object. *)
Definition new_dict (d : pydict) : M loc := fun w =>
  let l := fresh (dom (objects w)) in
  (Ok l, with_objects (<[l := d]> (objects w)) w).

(** [obj[k] = v]. *)
Definition setitem (obj : value) (k : string) (v : value) : M unit := fun w =>
  match obj with
  | VRef l =>
      (Ok tt, with_objects (<[l := Dict.setitem k v (deref (objects w) l)]> (objects w)) w)
  | VAtom _ => (Err TypeError, w)
  end.

(** [del obj[k]]. *)
Definition delitem (obj : value) (k : string) : M unit := fun w =>
  match obj with
  | VRef l =>
      match Dict.delitem k (deref (objects w) l) with
      | Some d => (Ok tt, with_objects (<[l := d]> (objects w)) w)
      | None => (Err KeyError, w)
      end
  | VAtom _ => (Err TypeError, w)
  end.

(** ** The path-addressed store *)

Definition get_by_path (h : heap) (data : loc) (path : list string) : result value :=
  reduce (getitem h) path (VRef data).

(** [path[-1]]. *)
Definition last_segment (path : list string) : result string :=
  match last path with
  | Some k => Ok k
  | None => Err IndexError
  end.

(** [get_by_path(data, path[:-1])[path[-1]] = value]: the parent is looked
    up first, then [path[-1]] is read, then the item is stored. *)
Definition set_by_path (data : loc) (path : list string) (v : value) : M unit :=
  parent ← reading (fun h => get_by_path h data (removelast path));
  k ← reading (fun _ => last_segment path);
  setitem parent k v.

Definition delete_by_path (data : loc) (path : list string) : M unit :=
  parent ← reading (fun h => get_by_path h data (removelast path));
  k ← reading (fun _ => last_segment path);
  delitem parent k.

(** ** Python's [sorted] *)

(** [sorted(l, key=key, reverse=reverse)]: every key is computed first, in
    order; the decorated list is then sorted with [<] alone.  The sort is
    stable, so for keys that [<] orders its result is the one of any stable
    sort; the model inserts from the right.  With [reverse] the list is
    reversed, sorted and reversed again, as CPython does to keep ties in
    their original order. *)
Section Sorted.
Context {A K : Type}.
Variable lt : K -> K -> result bool.
Variable key : A -> result K.

Fixpoint decorate (l : list A) : result (list (K * A)) :=
  match l with
  | [] => Ok []
  | a :: l' =>
      k ← key a;
      r ← decorate l';
      Ok ((k, a) :: r)
  end.

Fixpoint insert (x : K * A) (l : list (K * A)) : result (list (K * A)) :=
  match l with
  | [] => Ok [x]
  | y :: l' =>
      b ← lt (fst y) (fst x);
      if (b : bool) then r ← insert x l'; Ok (y :: r) else Ok (x :: y :: l')
  end.

Fixpoint isort (l : list (K * A)) : result (list (K * A)) :=
  match l with
  | [] => Ok []
  | x :: l' => s ← isort l'; insert x s
  end.

Definition sorted (reverse : bool) (l : list A) : result (list A) :=
  d ← decorate l;
  s ← (if reverse then r ← isort (rev d); Ok (rev r) else isort d);
  Ok (map snd s).
End Sorted.

(** ** Timestamp and DocumentSnapshot *)

(** The wall-clock reading is a float in the source; it is kept abstract. *)
Module Timestamp.
Record t (time : Type) : Type := Make { _timestamp : time }.
Arguments Make {time} _.
Arguments _timestamp {time} _.

(** [Timestamp.from_now()], the clock reading being [now]. *)
Definition from_now {time} (now : time) : t time := Make now.
End Timestamp.

Module DocumentSnapshot.
Record t : Type := Make { _doc : value }.

(** [self._doc != {}]. *)
Definition exists_ (h : heap) (self : t) : bool :=
  match _doc self with
  | VRef l => match deref h l with [] => false | _ :: _ => true end
  | VAtom _ => true
  end.

(** [to_dict] hands out the object the snapshot was built from. *)
Definition to_dict (self : t) : value := _doc self.
End DocumentSnapshot.

(** What a caller reads in the mapping [to_dict()] returned. *)
Definition mapping (h : heap) (v : value) : option pydict :=
  match v with
  | VRef l => Some (deref h l)
  | VAtom _ => None
  end.

(** ** DocumentReference *)

Module DocumentReference.
Record t : Type := Make { _data : loc; _path : list string }.

Definition id (self : t) : result string := last_segment (_path self).

Definition get (h : heap) (self : t) : result DocumentSnapshot.t :=
  doc ← get_by_path h (_data self) (_path self);
  Ok (DocumentSnapshot.Make doc).

Definition delete (self : t) : M unit :=
  delete_by_path (_data self) (_path self).

(** [obj.update(data)]: only a [dict] has the method. *)
Definition dict_update (obj : value) (data : loc) : M unit := fun w =>
  match obj with
  | VRef l =>
      let h := objects w in
      (Ok tt, with_objects (<[l := Dict.update (deref h l) (deref h data)]> h) w)
  | VAtom _ => (Err AttributeError, w)
  end.

Definition update (self : t) (data : loc) : M unit :=
  doc ← reading (fun h => get_by_path h (_data self) (_path self));
  dict_update doc data.

Definition set (self : t) (data : loc) (merge : bool) : M unit :=
  if merge then update self data
  else set_by_path (_data self) (_path self) (VRef data).
End DocumentReference.

(** ** Query *)

Module Query.
(** [_data]: the [OrderedDict] from document id to document. *)
Record t : Type := Make { _data : pydict }.

(** What [Query(...)] is called with: a value found in the store, which
    is no [OrderedDict], or an [OrderedDict] a chained operation built. *)
Inductive source : Type :=
  | Plain (collection : value)
  | Ordered (od : pydict).

(** [data.items()]. *)
Definition items (h : heap) (data : value) : result (list (string * value)) :=
  match data with
  | VRef l => Ok (deref h l)
  | VAtom _ => Err AttributeError
  end.

Definition __init__ (h : heap) (data : source) : result t :=
  match data with
  | Ordered od => Ok (Make od)
  | Plain c =>
      its ← items h c;
      s ← sorted (fun a b => Ok (String.ltb a b)) (fun t => Ok (fst t)) false its;
      Ok (Make (Dict.of_items s))
  end.

Definition get (self : t) : list DocumentSnapshot.t :=
  map (fun kv => DocumentSnapshot.Make (snd kv)) (_data self).

(** [None] is the [None] the source falls through to. *)
Definition _compare_func (op : string) : option (value -> atom -> result bool) :=
  if String.eqb op "==" then Some (fun x y => Ok (val_eq x y))
  else if String.eqb op "<" then Some (fun x y => val_order atom_lt x (VAtom y))
  else if String.eqb op "<=" then Some (fun x y => val_order atom_le x (VAtom y))
  else if String.eqb op ">" then Some (fun x y => val_order atom_gt x (VAtom y))
  else if String.eqb op ">=" then Some (fun x y => val_order atom_ge x (VAtom y))
  else None.

(** Calling what [_compare_func] returned; calling [None] is a [TypeError]. *)
Definition call (compare : option (value -> atom -> result bool))
    (x : value) (y : atom) : result bool :=
  match compare with
  | Some f => f x y
  | None => Err TypeError
  end.

(** The generator [(k, v) for k, v in items if compare(v[field], value)]:
    [v[field]] is evaluated before the call.  The source's [value] is
    [val] here. *)
Fixpoint filtered (h : heap) (compare : option (value -> atom -> result bool))
    (field : string) (val : atom) (its : list (string * value))
    : result (list (string * value)) :=
  match its with
  | [] => Ok []
  | kv :: rest =>
      x ← getitem h (snd kv) field;
      b ← call compare x val;
      r ← filtered h compare field val rest;
      Ok (if (b : bool) then kv :: r else r)
  end.

Definition where_ (h : heap) (self : t) (field op : string) (val : atom) : result t :=
  let compare := _compare_func op in
  f ← filtered h compare field val (_data self);
  __init__ h (Ordered (Dict.of_items f)).

Definition order_by (h : heap) (self : t) (key : string) (direction : option string)
    : result t :=
  let reverse :=
    match direction with
    | Some d => String.eqb d "DESCENDING"
    | None => false
    end in
  sorted_items ← sorted val_lt (fun doc => getitem h (snd doc) key) reverse (_data self);
  __init__ h (Ordered (Dict.of_items sorted_items)).

(** [sys.maxsize], on a 64-bit CPython. *)
Definition maxsize : Z := 2 ^ 63 - 1.

(** [islice(items, n)] takes [0 <= n <= sys.maxsize] and raises
    [ValueError] for any other integer. *)
Definition islice {A} (l : list A) (n : Z) : result (list A) :=
  if Z.ltb n 0 || Z.ltb maxsize n then Err ValueError
  else Ok (firstn (Z.to_nat n) l).

Definition limit (h : heap) (self : t) (limit_amount : Z) : result t :=
  limited ← islice (_data self) limit_amount;
  __init__ h (Ordered (Dict.of_items limited)).
End Query.

(** ** Iteration *)

(** [for key in obj]: the keys of a mapping, in its order; the characters of
    a [str]; a [TypeError] on the other atoms. *)
Definition iterate (h : heap) (obj : value) : result (list string) :=
  match obj with
  | VRef l => Ok (Dict.keys (deref h l))
  | VAtom (AStr s) =>
      Ok (map (fun ch => String ch EmptyString) (list_ascii_of_string s))
  | VAtom _ => Err TypeError
  end.

(** The body of a [for] loop that appends one result per element. *)
Fixpoint for_each {A B} (f : A -> M B) (l : list A) : M (list B) :=
  match l with
  | [] => mret []
  | a :: l' =>
      b ← f a;
      r ← for_each f l';
      mret (b :: r)
  end.

(** ** Random document ids *)

(** [string.ascii_letters + string.digits]. *)
Definition alphabet : string :=
  "abcdefghijklmnopqrstuvwxyzABCDEFGHIJKLMNOPQRSTUVWXYZ0123456789".

(** [random.choice(seq)]: one draw, reduced below [len(seq)]. *)
Definition choice (seq : string) (draw : nat) : ascii :=
  nth (draw mod String.length seq)%nat (list_ascii_of_string seq) "a"%char.

(** The twenty characters drawn from position [from] on. *)
Definition random_string (rand : nat -> nat) (from : nat) : string :=
  string_of_list_ascii
    (map (fun i => choice alphabet (rand (from + i)%nat)) (seq 0 20)).

Definition generate_random_string : M string := fun w =>
  (Ok (random_string (rand w) (drawn w)),
   World (objects w) (rand w) (drawn w + 20)%nat).

(** ** CollectionReference *)

Module CollectionReference.
Record t : Type := Make { _data : loc; _path : list string }.

Definition document (self : t) (name : option string) : M DocumentReference.t :=
  collection ← reading (fun h => get_by_path h (_data self) (_path self));
  name ← match name with
         | None => generate_random_string
         | Some n => mret n
         end;
  let new_path := _path self ++ [name] in
  present ← reading (fun h => contains h collection name);
  _ ← (if (present : bool) then mret tt
       else (empty ← new_dict []; set_by_path (_data self) new_path (VRef empty)));
  mret (DocumentReference.Make (_data self) new_path).

(** [document_data.get('id', generate_random_string())]: the default is
    drawn whether or not it is used, and what is found under ['id'] is
    returned whatever it is. *)
Definition id_of_data (document_data : loc) : M value :=
  generated ← generate_random_string;
  found ← reading (fun h => Ok (Dict.get "id" (deref h document_data)));
  mret (match found with
        | Some v => v
        | None => VAtom (AStr generated)
        end).

(** [add] from [collection = get_by_path(...)] on, for an id that is a
    [str]. *)
Definition add_at {time} (now : time) (self : t) (document_data : loc)
    (collection : value) (document_id : string)
    : M (Timestamp.t time * DocumentReference.t) :=
  let new_path := _path self ++ [document_id] in
  present ← reading (fun h => contains h collection document_id);
  if (present : bool) then raise AlreadyExists
  else
    let doc_ref := DocumentReference.Make (_data self) new_path in
    _ ← DocumentReference.set doc_ref document_data false;
    mret (Timestamp.from_now now, doc_ref).

(** The id is [document_id] or what [id_of_data] read.  A mapping as id
    makes [document_id in collection] a [TypeError], whatever the collection
    is (a mapping cannot be hashed, is no substring, and an [int] or [None]
    cannot be searched).  So does a [None], a [bool] or an [int] as id when
    the collection is not a mapping; when it is, the code tests and stores
    under that key, which a mapping with [str] keys cannot hold. *)
Definition add {time} (now : time) (self : t) (document_data : loc)
    (document_id : option string) : M (Timestamp.t time * DocumentReference.t) :=
  document_id ← match document_id with
                | None => id_of_data document_data
                | Some i => mret (VAtom (AStr i))
                end;
  collection ← reading (fun h => get_by_path h (_data self) (_path self));
  match document_id, collection with
  | VAtom (AStr id), _ => add_at now self document_data collection id
  | VRef _, _ => raise TypeError
  | VAtom _, VAtom _ => raise TypeError
  | VAtom _, VRef _ => raise OutsideAnnotations
  end.

Definition get (h : heap) (self : t) : result (list DocumentSnapshot.t) :=
  collection ← get_by_path h (_data self) (_path self);
  q ← Query.__init__ h (Query.Plain collection);
  Ok (Query.get q).

Definition where_ (h : heap) (self : t) (field op : string) (val : atom)
    : result Query.t :=
  collection ← get_by_path h (_data self) (_path self);
  q ← Query.__init__ h (Query.Plain collection);
  Query.where_ h q field op val.

Definition order_by (h : heap) (self : t) (key : string) (direction : option string)
    : result Query.t :=
  collection ← get_by_path h (_data self) (_path self);
  q ← Query.__init__ h (Query.Plain collection);
  Query.order_by h q key direction.

Definition limit (h : heap) (self : t) (limit_amount : Z) : result Query.t :=
  collection ← get_by_path h (_data self) (_path self);
  q ← Query.__init__ h (Query.Plain collection);
  Query.limit h q limit_amount.

(** [page_size] is accepted and ignored.  The loop walks the keys the
    mapping has when it starts; [document(key)] finds each of them present
    and writes nothing, so the mapping does not change under the loop. *)
Definition list_documents (self : t) (page_size : option Z)
    : M (list DocumentReference.t) :=
  keys ← reading (fun h =>
            collection ← get_by_path h (_data self) (_path self);
            iterate h collection);
  for_each (fun key => document self (Some key)) keys.
End CollectionReference.

(** [DocumentReference.collection(name)], stated after the class it
    returns. *)
Definition DocumentReference_collection (self : DocumentReference.t) (name : string)
    : M CollectionReference.t :=
  document ← reading (fun h =>
                get_by_path h (DocumentReference._data self) (DocumentReference._path self));
  let new_path := DocumentReference._path self ++ [name] in
  present ← reading (fun h => contains h document name);
  _ ← (if (present : bool) then mret tt
       else (empty ← new_dict [];
             set_by_path (DocumentReference._data self) new_path (VRef empty)));
  mret (CollectionReference.Make (DocumentReference._data self) new_path).

(** ** MockFirestore *)

Module MockFirestore.
Record t : Type := Make { _data : loc }.

Definition __init__ : M t :=
  root ← new_dict [];
  mret (Make root).

Definition collection (self : t) (name : string) : M CollectionReference.t :=
  present ← reading (fun h => contains h (VRef (_data self)) name);
  _ ← (if (present : bool) then mret tt
       else (empty ← new_dict []; setitem (VRef (_data self)) name (VRef empty)));
  mret (CollectionReference.Make (_data self) [name]).

(** [self._data = {}]: the store object now points at a new root. *)
Definition reset (self : t) : M t :=
  root ← new_dict [];
  mret (Make root).
End MockFirestore.

(** * Notions used in the statements *)

(** ** The supported operators of [where] and their meaning on numbers *)

Inductive operator : Type := OpEq | OpLt | OpLe | OpGt | OpGe.

Definition symbol (o : operator) : string :=
  match o with
  | OpEq => "=="
  | OpLt => "<"
  | OpLe => "<="
  | OpGt => ">"
  | OpGe => ">="
  end.

Definition supported (op : string) : Prop := exists o, op = symbol o.

Definition int_meaning (o : operator) : Z -> Z -> bool :=
  match o with
  | OpEq => Z.eqb
  | OpLt => Z.ltb
  | OpLe => Z.leb
  | OpGt => Z.gtb
  | OpGe => Z.geb
  end.

Definition str_meaning (o : operator) (s t : string) : bool :=
  match o with
  | OpEq => String.eqb s t
  | OpLt => String.ltb s t
  | OpLe => String.leb s t
  | OpGt => String.ltb t s
  | OpGe => String.leb t s
  end.

(** The entry [kv] has [field] and its value satisfies [op] against [val]. *)
Definition satisfies (h : heap) (field op : string) (val : atom)
    (kv : string * value) : bool :=
  match getitem h (snd kv) field with
  | Ok x =>
      match Query.call (Query._compare_func op) x val with
      | Ok b => b
      | Err _ => false
      end
  | Err _ => false
  end.

(** ** Sort keys *)

(** [x < y] where Python defines it, [false] elsewhere. *)
Definition below (x y : value) : bool :=
  match val_lt x y with
  | Ok b => b
  | Err _ => false
  end.

(** Neither is below the other: equal sort keys. *)
Definition tied (x y : value) : bool := negb (below x y) && negb (below y x).

(** The sort key of an entry, where it has one. *)
Definition key_of (h : heap) (key : string) (kv : string * value) : value :=
  match getitem h (snd kv) key with
  | Ok v => v
  | Err _ => VAtom ANone
  end.

Definition is_number (v : value) : Prop :=
  exists a n, v = VAtom a /\ as_int a = Some n.

Definition is_string (v : value) : Prop :=
  exists s, v = VAtom (AStr s).

(** Every entry has [key], and the values are all numbers or all strings:
    what [<] needs to order them. *)
Definition sortable (h : heap) (key : string) (its : list (string * value)) : Prop :=
  (forall kv, In kv its ->
     exists v, getitem h (snd kv) key = Ok v /\ is_number v)
  \/ (forall kv, In kv its ->
     exists v, getitem h (snd kv) key = Ok v /\ is_string v).

(** Insertion from the right under a total comparison: the sort that
    [sorted] performs when no comparison raises. *)
Section SortBy.
Context {A K : Type}.
Variable ltb : K -> K -> bool.
Variable kf : A -> K.

Fixpoint insert_by (x : A) (l : list A) : list A :=
  match l with
  | [] => [x]
  | y :: l' => if ltb (kf y) (kf x) then y :: insert_by x l' else x :: y :: l'
  end.

Fixpoint sort_by (l : list A) : list A :=
  match l with
  | [] => []
  | x :: l' => insert_by x (sort_by l')
  end.
End SortBy.

(** ** Paths through the heap *)

(** The objects subscripted while [path] is followed from [obj]. *)
Fixpoint visited (h : heap) (obj : value) (path : list string) : list loc :=
  match path, obj with
  | k :: rest, VRef l =>
      l :: match getitem h obj k with
           | Ok v => visited h v rest
           | Err _ => []
           end
  | _, _ => []
  end.

(** Every entry of a query is a document, that is a mapping. *)
Definition documents (its : list (string * value)) : Prop :=
  forall kv, In kv its -> exists l, snd kv = VRef l.

(** ** The id [add] writes to *)

(** [document_id] if given, else [data['id']] if present, else the string
    the generator yields next. *)
Definition target (w : world) (data : loc) (document_id : option string) : value :=
  match document_id with
  | Some i => VAtom (AStr i)
  | None =>
      match Dict.get "id" (deref (objects w) data) with
      | Some v => v
      | None => VAtom (AStr (random_string (rand w) (drawn w)))
      end
  end.

(** ** The scenarios of the specification, built through the API *)

Module Scenario.
Definition start : world := World ∅ (fun i => i) 0.

(** The world a scenario leaves. *)
Definition after {A} (m : M A) : world := snd (m start).

Definition n_is (n : Z) : pydict := [("n", VAtom (AInt n))].

(** [c.document(id).set(d)] *)
Definition put (c : CollectionReference.t) (id : string) (d : pydict)
    : M DocumentReference.t :=
  doc ← CollectionReference.document c (Some id);
  data ← new_dict d;
  _ ← DocumentReference.set doc data false;
  mret doc.

(** A collection of four documents with [n] in {3, 5, 8, 10}, written in
    an order that is neither the order of the ids nor the order of [n]. *)
Definition numbers : M CollectionReference.t :=
  fs ← MockFirestore.__init__;
  c ← MockFirestore.collection fs "nums";
  _ ← put c "d" (n_is 5);
  _ ← put c "b" (n_is 10);
  _ ← put c "a" (n_is 3);
  _ ← put c "c" (n_is 8);
  mret c.

(** The query over [numbers], as [Query(collection)] builds it. *)
Definition numbers_query : Query.t :=
  Query.Make [("a", VRef 7); ("b", VRef 5); ("c", VRef 9); ("d", VRef 3)]%nat.

(** What a caller reads in the snapshots a query returns. *)
Definition read (h : heap) (q : Query.t) : list (option pydict) :=
  map (fun s => mapping h (DocumentSnapshot.to_dict s)) (Query.get q).

(** [numbers.where('n', '>', 5).get()] *)
Definition where_gt_5 : M (list (option pydict)) :=
  c ← numbers;
  reading (fun h => q ← CollectionReference.where_ h c "n" ">" (AInt 5);
                    Ok (read h q)).

(** [numbers.order_by('n', 'DESCENDING').limit(2).get()] *)
Definition top_two : M (list (option pydict)) :=
  c ← numbers;
  reading (fun h => q ← CollectionReference.order_by h c "n" (Some "DESCENDING");
                    q' ← Query.limit h q 2;
                    Ok (read h q')).

(** An empty collection queried with an operator [where] does not know. *)
Definition where_unknown_on_empty : M Query.t :=
  fs ← MockFirestore.__init__;
  c ← MockFirestore.collection fs "nums";
  reading (fun h => CollectionReference.where_ h c "n" "!=" (AInt 5)).

(** Documents [a: {n: 'x'}] and [b: {}]. *)
Definition mixed : M CollectionReference.t :=
  fs ← MockFirestore.__init__;
  c ← MockFirestore.collection fs "nums";
  _ ← put c "a" [("n", VAtom (AStr "x"))];
  _ ← put c "b" [];
  mret c.

(** [mixed.where('n', '<', 5)]: the comparison of a [str] with an [int]
    comes before the missing field. *)
Definition where_mixed : M Query.t :=
  c ← mixed;
  reading (fun h => CollectionReference.where_ h c "n" "<" (AInt 5)).

(** Documents [a: {n: 3}] and [b: {}]. *)
Definition partial : M CollectionReference.t :=
  fs ← MockFirestore.__init__;
  c ← MockFirestore.collection fs "nums";
  _ ← put c "a" (n_is 3);
  _ ← put c "b" [];
  mret c.

(** [c = fs.collection('c'); d = c.document('a'); d.set({'x': 1})] *)
Definition one_document : M DocumentReference.t :=
  fs ← MockFirestore.__init__;
  c ← MockFirestore.collection fs "c";
  put c "a" [("x", VAtom (AInt 1))].

(** The same, followed by [d.delete()]. *)
Definition deleted : M DocumentReference.t :=
  d ← one_document;
  _ ← DocumentReference.delete d;
  mret d.


(** [d.set({'a': 1, 'b': 2}); d.set({'b': 3, 'c': 4}, merge=True)],
    then what [d.get().to_dict()] holds. *)
Definition merged : M (option pydict) :=
  fs ← MockFirestore.__init__;
  c ← MockFirestore.collection fs "c";
  d ← put c "doc" [("a", VAtom (AInt 1)); ("b", VAtom (AInt 2))];
  data ← new_dict [("b", VAtom (AInt 3)); ("c", VAtom (AInt 4))];
  _ ← DocumentReference.set d data true;
  reading (fun h => s ← DocumentReference.get h d;
                    Ok (mapping h (DocumentSnapshot.to_dict s))).

(** [s = d.get()]; what [s.to_dict()] holds before and after
    [d.update({'a': 2})]. *)
Definition snapshot_then_update : M (option pydict * option pydict) :=
  fs ← MockFirestore.__init__;
  c ← MockFirestore.collection fs "c";
  d ← put c "doc" [("a", VAtom (AInt 1))];
  s ← reading (fun h => DocumentReference.get h d);
  before ← reading (fun h => Ok (mapping h (DocumentSnapshot.to_dict s)));
  data ← new_dict [("a", VAtom (AInt 2))];
  _ ← DocumentReference.update d data;
  after ← reading (fun h => Ok (mapping h (DocumentSnapshot.to_dict s)));
  mret (before, after).

(** Documents [a: {n: 3}] and [b: {n: 'x'}], and the query over them. *)
Definition two_kinds : M CollectionReference.t :=
  fs ← MockFirestore.__init__;
  c ← MockFirestore.collection fs "nums";
  _ ← put c "a" (n_is 3);
  _ ← put c "b" [("n", VAtom (AStr "x"))];
  mret c.

Definition two_kinds_query : Query.t :=
  Query.Make [("a", VRef 3); ("b", VRef 5)]%nat.


(** The query over [partial], as [Query(collection)] builds it. *)
Definition partial_query : Query.t :=
  Query.Make [("a", VRef 3); ("b", VRef 5)]%nat.
End Scenario.

(** * Properties *)

(** ** Mappings *)

Lemma Dict_get_None (k : string) (d : pydict) :
  Dict.get k d = None <-> k ∉ Dict.keys d.
Proof.
  unfold Dict.keys. induction d as [|[k' v] d IH]; simpl.
  - split; [intros _; apply not_elem_of_nil | done].
  - rewrite not_elem_of_cons. destruct (String.eqb_spec k k') as [->|Hne].
    + split; [done | intros [? _]; congruence].
    + rewrite IH. tauto.
Qed.

Lemma Dict_get_Some_In (k : string) (v : value) (d : pydict) :
  Dict.get k d = Some v -> In (k, v) d.
Proof.
  induction d as [|[k' v'] d IH]; simpl; [done|].
  destruct (String.eqb_spec k k') as [->|Hne].
  - intros [= ->]. by left.
  - intros H. right. by apply IH.
Qed.

Lemma Dict_In_get (k : string) (v : value) (d : pydict) :
  Dict.wf d -> In (k, v) d -> Dict.get k d = Some v.
Proof.
  unfold Dict.wf, Dict.keys.
  induction d as [|[k' v'] d IH]; simpl; [done|].
  intros Hnd [Heq|Hin].
  - injection Heq as -> ->. by rewrite String.eqb_refl.
  - apply NoDup_cons in Hnd as [Hk' Hnd].
    destruct (String.eqb_spec k k') as [->|Hne].
    + exfalso. apply Hk'. apply list_elem_of_In.
      change k' with (fst (k', v)). by apply in_map.
    + by apply IH.
Qed.

Lemma Dict_get_setitem_eq (k : string) (v : value) (d : pydict) :
  Dict.get k (Dict.setitem k v d) = Some v.
Proof.
  induction d as [|[k' v'] d IH]; simpl.
  - by rewrite String.eqb_refl.
  - destruct (String.eqb_spec k k') as [->|Hne]; simpl.
    + by rewrite String.eqb_refl.
    + destruct (String.eqb_spec k k'); [done | apply IH].
Qed.

Lemma Dict_get_setitem_ne (k k' : string) (v : value) (d : pydict) :
  k <> k' -> Dict.get k' (Dict.setitem k v d) = Dict.get k' d.
Proof.
  intros Hne. induction d as [|[k0 v0] d IH]; simpl.
  - destruct (String.eqb_spec k' k); [congruence | done].
  - destruct (String.eqb_spec k k0) as [->|Hne0]; simpl.
    + destruct (String.eqb_spec k' k0); [congruence | done].
    + destruct (String.eqb_spec k' k0); [done | apply IH].
Qed.

Lemma Dict_setitem_new (k : string) (v : value) (d : pydict) :
  k ∉ Dict.keys d -> Dict.setitem k v d = d ++ [(k, v)].
Proof.
  unfold Dict.keys. induction d as [|[k' v'] d IH]; simpl; [done|].
  rewrite not_elem_of_cons. intros [Hne Hd].
  destruct (String.eqb_spec k k'); [done|]. by rewrite IH.
Qed.

Lemma Dict_keys_setitem (k : string) (v : value) (d : pydict) :
  Dict.keys (Dict.setitem k v d) =
  if Dict.contains k d then Dict.keys d else Dict.keys d ++ [k].
Proof.
  unfold Dict.keys, Dict.contains. induction d as [|[k' v'] d IH]; simpl; [done|].
  destruct (String.eqb_spec k k') as [->|Hne]; simpl; [done|].
  rewrite IH. by destruct (Dict.get k d).
Qed.

Lemma Dict_contains_keys (k : string) (d : pydict) :
  Dict.contains k d = true <-> k ∈ Dict.keys d.
Proof.
  unfold Dict.contains. destruct (Dict.get k d) eqn:E.
  - split; [intros _ | done].
    destruct (decide (k ∈ Dict.keys d)) as [|Hn]; [done|].
    apply Dict_get_None in Hn. congruence.
  - apply Dict_get_None in E. split; [done | tauto].
Qed.

Lemma Dict_wf_setitem (k : string) (v : value) (d : pydict) :
  Dict.wf d -> Dict.wf (Dict.setitem k v d).
Proof.
  unfold Dict.wf. intros Hd. rewrite Dict_keys_setitem.
  destruct (Dict.contains k d) eqn:E; [done|].
  apply NoDup_app. split_and!; [done | | apply NoDup_singleton].
  intros x Hx Hx'. apply list_elem_of_singleton in Hx' as ->.
  apply Dict_contains_keys in Hx. congruence.
Qed.

Lemma Dict_update_app (d other : pydict) :
  NoDup (Dict.keys (d ++ other)) -> Dict.update d other = d ++ other.
Proof.
  unfold Dict.update. revert d.
  induction other as [|[k v] o IH]; intros d Hnd; simpl.
  - by rewrite app_nil_r.
  - assert (Hk : k ∉ Dict.keys d).
    { unfold Dict.keys in *. rewrite map_app in Hnd. simpl in Hnd.
      apply NoDup_app in Hnd as (_ & Hdis & _).
      intros Hin. apply (Hdis k Hin). left. }
    rewrite (Dict_setitem_new k v d Hk), IH, <- app_assoc; [done|].
    by rewrite <- app_assoc.
Qed.

Lemma Dict_of_items_id (its : pydict) :
  Dict.wf its -> Dict.of_items its = its.
Proof. intros H. unfold Dict.of_items. by rewrite Dict_update_app. Qed.

Lemma Dict_wf_update (d other : pydict) :
  Dict.wf d -> Dict.wf (Dict.update d other).
Proof.
  unfold Dict.update. revert d.
  induction other as [|[k v] o IH]; intros d Hd; simpl; [done|].
  apply IH. by apply Dict_wf_setitem.
Qed.

Lemma Dict_get_update (k : string) (d other : pydict) :
  Dict.wf other ->
  Dict.get k (Dict.update d other) =
  match Dict.get k other with
  | Some v => Some v
  | None => Dict.get k d
  end.
Proof.
  unfold Dict.update, Dict.wf, Dict.keys. revert d.
  induction other as [|[k' v'] o IH]; intros d Hnd; simpl; [done|].
  apply NoDup_cons in Hnd as [Hk' Hnd]. simpl in Hk'. rewrite (IH _ Hnd).
  destruct (String.eqb_spec k k') as [->|Hne].
  - apply Dict_get_None in Hk'. rewrite Hk'. apply Dict_get_setitem_eq.
  - destruct (Dict.get k o); [done|]. by apply Dict_get_setitem_ne.
Qed.

Lemma Dict_delitem_Some (k : string) (d : pydict) :
  Dict.contains k d = true -> exists d', Dict.delitem k d = Some d'.
Proof.
  unfold Dict.contains. induction d as [|[k' v'] d IH]; simpl; [done|].
  destruct (String.eqb_spec k k'); [eauto|].
  intros H. destruct (IH H) as [d' ->]. eauto.
Qed.

Lemma Dict_delitem_None (k : string) (d : pydict) :
  Dict.contains k d = false -> Dict.delitem k d = None.
Proof.
  unfold Dict.contains. induction d as [|[k' v'] d IH]; simpl; [done|].
  destruct (String.eqb_spec k k'); [done|].
  intros H. by rewrite (IH H).
Qed.

Lemma Dict_get_delitem (k : string) (d d' : pydict) :
  Dict.wf d -> Dict.delitem k d = Some d' ->
  Dict.get k d' = None /\ (forall k', k' <> k -> Dict.get k' d' = Dict.get k' d).
Proof.
  unfold Dict.wf, Dict.keys. revert d'.
  induction d as [|[k0 v0] d IH]; intros d' Hnd; simpl; [done|].
  apply NoDup_cons in Hnd as [Hk0 Hnd].
  destruct (String.eqb_spec k k0) as [->|Hne].
  - intros [= <-]. split; [by apply Dict_get_None|].
    intros k' Hk'. by destruct (String.eqb_spec k' k0).
  - destruct (Dict.delitem k d) as [r|] eqn:E; [|done].
    intros [= <-]. destruct (IH r Hnd eq_refl) as [H1 H2]. simpl.
    destruct (String.eqb_spec k k0); [done|]. split; [done|].
    intros k' Hk'. destruct (String.eqb_spec k' k0); [done | by apply H2].
Qed.

(** ** The heap *)

Lemma deref_insert_eq (h : heap) (l : loc) (d : pydict) :
  deref (<[l := d]> h) l = d.
Proof. unfold deref. by rewrite lookup_insert_eq. Qed.

Lemma deref_insert_ne (h : heap) (l l' : loc) (d : pydict) :
  l <> l' -> deref (<[l := d]> h) l' = deref h l'.
Proof. intros H. unfold deref. by rewrite lookup_insert_ne. Qed.

(** A new empty mapping changes nothing that could be read before. *)
Lemma deref_new_empty (h : heap) (l l' : loc) :
  h !! l = None -> deref (<[l := []]> h) l' = deref h l'.
Proof.
  intros H. destruct (decide (l = l')) as [<-|Hne].
  - rewrite deref_insert_eq. unfold deref. by rewrite H.
  - by apply deref_insert_ne.
Qed.

Lemma fresh_unused (h : heap) : h !! fresh (dom h) = None.
Proof. apply not_elem_of_dom. apply is_fresh. Qed.

Lemma reduce_snoc {A B} (f : A -> B -> result A) (l : list B) (b : B) (init : A) :
  reduce f (l ++ [b]) init =
  match reduce f l init with
  | Ok a => f a b
  | Err e => Err e
  end.
Proof.
  revert init. induction l as [|x l IH]; intros init; simpl.
  - by destruct (f init b).
  - destruct (f init x); [apply IH | done].
Qed.

(** Following a path reads only the objects it subscripts. *)
Lemma reduce_getitem_frame (h h' : heap) (path : list string) (obj : value) :
  (forall l, l ∈ visited h obj path -> deref h' l = deref h l) ->
  reduce (getitem h') path obj = reduce (getitem h) path obj.
Proof.
  revert obj. induction path as [|k path IH]; intros obj Hsame; simpl; [done|].
  destruct obj as [a|l]; simpl in *; [done|].
  rewrite (Hsame l) by left.
  destruct (Dict.get k (deref h l)) as [v|]; [|done].
  apply IH. intros l' Hl'. apply Hsame. by right.
Qed.

Lemma get_by_path_frame (h h' : heap) (data : loc) (path : list string) :
  (forall l, l ∈ visited h (VRef data) path -> deref h' l = deref h l) ->
  get_by_path h' data path = get_by_path h data path.
Proof. apply reduce_getitem_frame. Qed.

(** Rewriting one object that the path does not subscript. *)
Lemma get_by_path_insert (h : heap) (data p : loc) (d : pydict) (path : list string) :
  p ∉ visited h (VRef data) path ->
  get_by_path (<[p := d]> h) data path = get_by_path h data path.
Proof.
  intros Hp. apply get_by_path_frame. intros l Hl.
  apply deref_insert_ne. intros ->. by apply Hp.
Qed.

Lemma get_by_path_new_empty (h : heap) (data l : loc) (path : list string) :
  h !! l = None ->
  get_by_path (<[l := []]> h) data path = get_by_path h data path.
Proof.
  intros H. apply get_by_path_frame. intros l' _. by apply deref_new_empty.
Qed.

Lemma visited_frame (h h' : heap) (path : list string) (obj : value) :
  (forall l, l ∈ visited h obj path -> deref h' l = deref h l) ->
  visited h' obj path = visited h obj path.
Proof.
  revert obj. induction path as [|k path IH]; intros obj Hsame; simpl; [done|].
  destruct obj as [a|l]; simpl in *; [done|].
  rewrite (Hsame l) by left. f_equal.
  destruct (Dict.get k (deref h l)) as [v|]; [|done].
  apply IH. intros l' Hl'. apply Hsame. by right.
Qed.

Lemma get_by_path_snoc (h : heap) (data : loc) (path : list string) (k : string) :
  get_by_path h data (path ++ [k]) =
  match get_by_path h data path with
  | Ok obj => getitem h obj k
  | Err e => Err e
  end.
Proof. apply reduce_snoc. Qed.

(** ** The store operations on a path that ends below a mapping *)

Lemma last_segment_snoc (path : list string) (k : string) :
  last_segment (path ++ [k]) = Ok k.
Proof. unfold last_segment. by rewrite last_snoc. Qed.

Lemma set_by_path_snoc (w : world) (data p : loc) (path : list string)
    (k : string) (v : value) :
  get_by_path (objects w) data path = Ok (VRef p) ->
  set_by_path data (path ++ [k]) v w =
  (Ok tt, with_objects (<[p := Dict.setitem k v (deref (objects w) p)]> (objects w)) w).
Proof.
  intros H. unfold set_by_path, mbind, M_bind, reading.
  by rewrite removelast_last, H, last_segment_snoc.
Qed.

Lemma delete_by_path_snoc (w : world) (data p : loc) (path : list string)
    (k : string) :
  get_by_path (objects w) data path = Ok (VRef p) ->
  delete_by_path data (path ++ [k]) w =
  match Dict.delitem k (deref (objects w) p) with
  | Some d => (Ok tt, with_objects (<[p := d]> (objects w)) w)
  | None => (Err KeyError, w)
  end.
Proof.
  intros H. unfold delete_by_path, mbind, M_bind, reading.
  by rewrite removelast_last, H, last_segment_snoc.
Qed.

(** ** C1: reading a document that is absent *)

(** C1, as stated, fails: after [d.delete()] succeeded, [d.get()] on the
    same handle raises [KeyError]. *)
Lemma C1_get_after_delete_raises :
  let (r, w) := Scenario.deleted Scenario.start in
  exists d, r = Ok d /\ DocumentReference.get (objects w) d = Err KeyError.
Proof. vm_compute. eexists. split; reflexivity. Qed.

(** C1, amended.  Let [d] be the handle of the document [name] of a
    collection whose mapping holds [name].  Then [d.delete()] succeeds and
    [d.get()] on the same handle raises [KeyError]; asking the collection
    for [document(name)] again materializes an empty mapping, and [get()]
    on that handle returns a snapshot with [exists == False] and
    [to_dict() == {}]. *)
Theorem C1_get_on_absent_document
    (w : world) (data : loc) (path : list string) (name : string) (p : loc) :
  let c := CollectionReference.Make data path in
  let d := DocumentReference.Make data (path ++ [name]) in
  get_by_path (objects w) data path = Ok (VRef p) ->
  Dict.wf (deref (objects w) p) ->
  p ∉ visited (objects w) (VRef data) path ->
  Dict.contains name (deref (objects w) p) = true ->
  exists w1,
    DocumentReference.delete d w = (Ok tt, w1)
    /\ DocumentReference.get (objects w1) d = Err KeyError
    /\ exists w2 s,
         CollectionReference.document c (Some name) w1 = (Ok d, w2)
         /\ DocumentReference.get (objects w2) d = Ok s
         /\ DocumentSnapshot.exists_ (objects w2) s = false
         /\ mapping (objects w2) (DocumentSnapshot.to_dict s) = Some [].
Proof.
  intros c d Hres Hwf Hroute Hin.
  destruct w as [h rnd n]. simpl in *.
  destruct (Dict_delitem_Some _ _ Hin) as [d' Hdel].
  destruct (Dict_get_delitem _ _ _ Hwf Hdel) as [Hgone _].
  set (h1 := <[p := d']> h).
  assert (Hres1 : get_by_path h1 data path = Ok (VRef p)).
  { unfold h1. by rewrite get_by_path_insert. }
  exists (World h1 rnd n). split_and!.
  - unfold DocumentReference.delete, d. simpl.
    rewrite (delete_by_path_snoc _ _ p) by done. simpl. by rewrite Hdel.
  - unfold DocumentReference.get, d. simpl.
    rewrite get_by_path_snoc, Hres1. simpl.
    unfold h1. by rewrite deref_insert_eq, Hgone.
  - set (l := fresh (dom h1)).
    assert (Hl : h1 !! l = None) by apply fresh_unused.
    assert (Hlp : p <> l).
    { intros E. rewrite <- E in Hl. unfold h1 in Hl.
      by rewrite lookup_insert_eq in Hl. }
    set (h2 := <[l := []]> h1).
    set (h3 := <[p := Dict.setitem name (VRef l) (deref h2 p)]> h2).
    assert (Hres3 : get_by_path h3 data path = Ok (VRef p)).
    { rewrite <- Hres. apply get_by_path_frame. intros l' Hl'.
      assert (p <> l') by (intros ->; by apply Hroute).
      unfold h3, h2, h1.
      rewrite deref_insert_ne by done.
      rewrite deref_new_empty by done.
      by rewrite deref_insert_ne. }
    exists (World h3 rnd n), (DocumentSnapshot.Make (VRef l)). split_and!.
    + unfold CollectionReference.document, c, mbind, M_bind, reading. simpl.
      rewrite Hres1. simpl. unfold h1 at 1. rewrite deref_insert_eq.
      unfold Dict.contains. rewrite Hgone.
      unfold new_dict. simpl. fold l. fold h2.
      rewrite (set_by_path_snoc _ _ p); simpl.
      * done.
      * unfold h2. by rewrite get_by_path_new_empty.
    + unfold DocumentReference.get, d. simpl.
      rewrite get_by_path_snoc, Hres3. simpl.
      unfold h3. by rewrite deref_insert_eq, Dict_get_setitem_eq.
    + unfold DocumentSnapshot.exists_. simpl.
      unfold h3, h2. by rewrite deref_insert_ne, deref_insert_eq.
    + simpl. unfold h3, h2. by rewrite deref_insert_ne, deref_insert_eq.
Qed.

(** ** Sorting *)

Lemma StronglySorted_snoc {A} (R : A -> A -> Prop) (l : list A) (a : A) :
  StronglySorted R l -> Forall (fun b => R b a) l -> StronglySorted R (l ++ [a]).
Proof.
  induction 1 as [|b l Hs IH Hb]; intros Hall; simpl.
  - repeat constructor.
  - apply Forall_cons in Hall as [Hba Hall].
    constructor; [by apply IH|].
    apply Forall_app. split; [done | by constructor].
Qed.

Lemma StronglySorted_rev {A} (R : A -> A -> Prop) (l : list A) :
  StronglySorted R l -> StronglySorted (fun a b => R b a) (rev l).
Proof.
  induction 1 as [|a l Hs IH Ha]; simpl; [constructor|].
  apply StronglySorted_snoc; [done|].
  by rewrite <- Permutation_rev.
Qed.

(** The sort under a total comparison: a permutation, ordered, and stable.
    The comparison is a strict weak order on the keys that satisfy [P]. *)
Section SortByFacts.
Context {A K : Type}.
Variable ltb : K -> K -> bool.
Variable kf : A -> K.
Variable P : K -> Prop.

Hypothesis ltb_asym :
  forall x y, P x -> P y -> ltb x y = true -> ltb y x = false.
Hypothesis ltb_neg_trans :
  forall x y z, P x -> P y -> P z ->
    ltb y x = false -> ltb z y = false -> ltb z x = false.

Let ordered (a b : A) : Prop := ltb (kf b) (kf a) = false.
Let keyed (l : list A) : Prop := Forall (fun a => P (kf a)) l.
Let tie (x : K) (a : A) : bool := negb (ltb x (kf a)) && negb (ltb (kf a) x).

Lemma insert_by_perm (x : A) (l : list A) :
  Permutation (x :: l) (insert_by ltb kf x l).
Proof.
  induction l as [|y l IH]; simpl; [done|].
  destruct (ltb (kf y) (kf x)); [|done].
  rewrite perm_swap. by constructor.
Qed.

Lemma sort_by_perm (l : list A) : Permutation l (sort_by ltb kf l).
Proof.
  induction l as [|x l IH]; simpl; [done|].
  rewrite <- insert_by_perm. by constructor.
Qed.

Lemma sort_by_keyed (l : list A) : keyed l -> keyed (sort_by ltb kf l).
Proof. unfold keyed. intros H. by rewrite <- sort_by_perm. Qed.

Lemma insert_by_sorted (x : A) (l : list A) :
  P (kf x) -> keyed l ->
  StronglySorted ordered l -> StronglySorted ordered (insert_by ltb kf x l).
Proof.
  intros Hx. induction l as [|y l IH]; intros Hl Hs; simpl.
  - repeat constructor.
  - apply Forall_cons in Hl as [Hy Hl].
    apply StronglySorted_inv in Hs as [Hs Hall].
    destruct (ltb (kf y) (kf x)) eqn:E.
    + constructor; [by apply IH|].
      rewrite <- insert_by_perm. constructor; [|done].
      unfold ordered. by apply ltb_asym.
    + constructor; [by constructor|].
      constructor; [done|].
      rewrite Forall_forall in Hall, Hl |- *. intros z Hz.
      unfold ordered in *.
      apply (ltb_neg_trans _ (kf y)); auto.
Qed.

Lemma sort_by_sorted (l : list A) :
  keyed l -> StronglySorted ordered (sort_by ltb kf l).
Proof.
  induction l as [|x l IH]; intros Hl; simpl; [constructor|].
  apply Forall_cons in Hl as [Hx Hl].
  apply insert_by_sorted; [done | by apply sort_by_keyed | by apply IH].
Qed.

(** Stability: the entries tied with a key come out in the order they
    went in. *)
Lemma filter_insert_by (x : K) (a : A) (l : list A) :
  P x -> P (kf a) -> keyed l ->
  List.filter (tie x) (insert_by ltb kf a l) =
  if tie x a then a :: List.filter (tie x) l else List.filter (tie x) l.
Proof.
  intros Hx Ha. induction l as [|y l IH]; intros Hl; simpl; [done|].
  apply Forall_cons in Hl as [Hy Hl].
  destruct (ltb (kf y) (kf a)) eqn:E; simpl; [|done].
  rewrite (IH Hl). destruct (tie x a) eqn:Ea; [|done].
  assert (Hty : tie x y = false); [|by rewrite Hty].
  unfold tie in *. apply andb_true_iff in Ea as [E1 E2].
  apply negb_true_iff in E1, E2.
  destruct (ltb (kf y) x) eqn:E3; [by rewrite andb_false_r|].
  rewrite (ltb_neg_trans (kf a) x (kf y)) in E; done.
Qed.

Lemma filter_sort_by (x : K) (l : list A) :
  P x -> keyed l ->
  List.filter (tie x) (sort_by ltb kf l) = List.filter (tie x) l.
Proof.
  intros Hx. induction l as [|a l IH]; intros Hl; simpl; [done|].
  apply Forall_cons in Hl as [Ha Hl].
  rewrite filter_insert_by by (done || by apply sort_by_keyed).
  by rewrite (IH Hl).
Qed.

(** The same sort from the other end: descending, ties still in their
    original order. *)
Lemma rev_sort_by_sorted (l : list A) :
  keyed l ->
  StronglySorted (fun a b => ordered b a) (rev (sort_by ltb kf (rev l))).
Proof.
  intros Hl. apply StronglySorted_rev, sort_by_sorted.
  unfold keyed. by rewrite <- Permutation_rev.
Qed.

Lemma filter_rev_sort_by (x : K) (l : list A) :
  P x -> keyed l ->
  List.filter (tie x) (rev (sort_by ltb kf (rev l))) = List.filter (tie x) l.
Proof.
  intros Hx Hl. rewrite filter_rev, filter_sort_by, filter_rev, rev_involutive.
  - done.
  - done.
  - unfold keyed. by rewrite <- Permutation_rev.
Qed.
End SortByFacts.

(** [sorted] is that sort when every key is there and [<] never raises. *)
Section SortedAgrees.
Context {A K : Type}.
Variable lt : K -> K -> result bool.
Variable key : A -> result K.
Variable ltb : K -> K -> bool.
Variable kf : A -> K.
Variable P : K -> Prop.

Hypothesis lt_ltb : forall x y, P x -> P y -> lt x y = Ok (ltb x y).

Let dec (a : A) : K * A := (kf a, a).

Lemma decorate_ok (l : list A) :
  (forall a, In a l -> key a = Ok (kf a)) ->
  decorate key l = Ok (map dec l).
Proof.
  induction l as [|a l IH]; intros H; simpl; [done|].
  rewrite (H a) by (by left). simpl.
  rewrite IH; [done|]. intros b Hb. apply H. by right.
Qed.

Lemma insert_ok (x : A) (s : list A) :
  P (kf x) -> Forall (fun a => P (kf a)) s ->
  insert lt (dec x) (map dec s) = Ok (map dec (insert_by ltb kf x s)).
Proof.
  intros Hx. induction s as [|y s IH]; intros Hs; simpl; [done|].
  apply Forall_cons in Hs as [Hy Hs].
  rewrite lt_ltb by done. simpl.
  destruct (ltb (kf y) (kf x)); [|done].
  by rewrite (IH Hs).
Qed.

Lemma isort_ok (l : list A) :
  Forall (fun a => P (kf a)) l ->
  isort lt (map dec l) = Ok (map dec (sort_by ltb kf l)).
Proof.
  induction l as [|x l IH]; intros Hl; simpl; [done|].
  apply Forall_cons in Hl as [Hx Hl].
  rewrite (IH Hl). simpl. apply insert_ok; [done|].
  by rewrite <- sort_by_perm.
Qed.

Lemma sorted_ok (reverse : bool) (l : list A) :
  (forall a, In a l -> key a = Ok (kf a) /\ P (kf a)) ->
  sorted lt key reverse l =
  Ok (if reverse then rev (sort_by ltb kf (rev l)) else sort_by ltb kf l).
Proof.
  intros H. unfold sorted.
  rewrite decorate_ok by (intros a Ha; by apply H). simpl.
  assert (Hl : Forall (fun a => P (kf a)) l).
  { apply Forall_forall. intros a Ha. by apply H, list_elem_of_In. }
  assert (Hsnd : forall s : list A, map snd (map dec s) = s).
  { intros s. rewrite map_map. apply map_id. }
  destruct reverse.
  - rewrite <- map_rev, isort_ok by (by rewrite <- Permutation_rev). simpl.
    by rewrite <- map_rev, Hsnd.
  - rewrite isort_ok by done. simpl. by rewrite Hsnd.
Qed.

(** The first entry without a key decides how [sorted] fails. *)
Lemma sorted_key_error (reverse : bool) (l : list A) (e : exn) :
  (forall a e', In a l -> key a = Err e' -> e' = e) ->
  (exists a, In a l /\ key a = Err e) ->
  sorted lt key reverse l = Err e.
Proof.
  intros Hall Hex. unfold sorted.
  assert (Hd : decorate key l = Err e); [|by rewrite Hd].
  induction l as [|a l IH]; simpl.
  - by destruct Hex as (? & [] & _).
  - destruct (key a) as [k|e'] eqn:E; simpl.
    + rewrite IH; [done | |].
      * intros b e' Hb. apply Hall. by right.
      * destruct Hex as (b & [->|Hb] & Eb); [congruence | eauto].
    + f_equal. apply (Hall a); [by left | done].
Qed.
End SortedAgrees.

(** ** The order of sort keys and of document ids *)

Lemma String_ltb_asym (s t : string) : String.ltb s t = true -> String.ltb t s = false.
Proof.
  unfold String.ltb. rewrite (String.compare_antisym t s).
  by destruct (String.compare s t).
Qed.

Lemma String_ltb_neg_trans (x y z : string) :
  String.ltb y x = false -> String.ltb z y = false -> String.ltb z x = false.
Proof.
  unfold String.ltb. intros Hyx Hzy.
  destruct (String.compare z x) eqn:Ezx; [done | | done]. exfalso.
  apply String_as_OT.cmp_lt in Ezx.
  destruct (String.compare y x) eqn:Eyx; [| done |].
  - apply String.compare_eq_iff in Eyx as ->.
    apply String_as_OT.cmp_lt in Ezx. unfold String_as_OT.cmp in Ezx.
    by rewrite Ezx in Hzy.
  - rewrite String.compare_antisym in Eyx.
    destruct (String.compare x y) eqn:Exy; try done.
    apply String_as_OT.cmp_lt in Exy.
    pose proof (String_as_OT.lt_trans _ _ _ Ezx Exy) as Hzy'.
    apply String_as_OT.cmp_lt in Hzy'. unfold String_as_OT.cmp in Hzy'.
    by rewrite Hzy' in Hzy.
Qed.

Lemma String_ltb_total (s t : string) :
  s <> t -> String.ltb t s = false -> String.ltb s t = true.
Proof.
  unfold String.ltb. intros Hne. rewrite (String.compare_antisym t s).
  destruct (String.compare s t) eqn:E; simpl; try done.
  by apply String.compare_eq_iff in E.
Qed.

Lemma below_number (a b : atom) (m n : Z) :
  as_int a = Some m -> as_int b = Some n ->
  below (VAtom a) (VAtom b) = Z.ltb m n.
Proof.
  intros Ha Hb. unfold below, val_lt, val_order, atom_lt, atom_order.
  destruct a, b; simpl in *; try discriminate;
    injection Ha as <-; injection Hb as <-; reflexivity.
Qed.

Lemma below_string (s t : string) :
  below (VAtom (AStr s)) (VAtom (AStr t)) = String.ltb s t.
Proof. reflexivity. Qed.

Lemma val_lt_number (x y : value) :
  is_number x -> is_number y -> val_lt x y = Ok (below x y).
Proof.
  intros (a & m & -> & Ha) (b & n & -> & Hb).
  unfold below, val_lt, val_order, atom_lt, atom_order.
  destruct a, b; simpl in *; try discriminate; reflexivity.
Qed.

Lemma val_lt_string (x y : value) :
  is_string x -> is_string y -> val_lt x y = Ok (below x y).
Proof. intros [s ->] [t ->]. reflexivity. Qed.

Lemma below_asym_number (x y : value) :
  is_number x -> is_number y -> below x y = true -> below y x = false.
Proof.
  intros (a & m & -> & Ha) (b & n & -> & Hb).
  rewrite (below_number a b m n), (below_number b a n m) by done. lia.
Qed.

Lemma below_neg_trans_number (x y z : value) :
  is_number x -> is_number y -> is_number z ->
  below y x = false -> below z y = false -> below z x = false.
Proof.
  intros (a & m & -> & Ha) (b & n & -> & Hb) (c & k & -> & Hc).
  rewrite (below_number b a n m), (below_number c b k n),
    (below_number c a k m) by done. lia.
Qed.

Lemma below_asym_string (x y : value) :
  is_string x -> is_string y -> below x y = true -> below y x = false.
Proof. intros [s ->] [t ->]. rewrite !below_string. apply String_ltb_asym. Qed.

Lemma below_neg_trans_string (x y z : value) :
  is_string x -> is_string y -> is_string z ->
  below y x = false -> below z y = false -> below z x = false.
Proof.
  intros [s ->] [t ->] [u ->]. rewrite !below_string. apply String_ltb_neg_trans.
Qed.

(** ** Queries *)

Lemma Dict_wf_Permutation (l l' : pydict) :
  Permutation l l' -> Dict.wf l -> Dict.wf l'.
Proof.
  unfold Dict.wf, Dict.keys. intros Hp Hl.
  by rewrite <- (Permutation_map fst Hp).
Qed.

Lemma Dict_wf_filter (f : string * value -> bool) (l : pydict) :
  Dict.wf l -> Dict.wf (List.filter f l).
Proof.
  unfold Dict.wf, Dict.keys. induction l as [|kv l IH]; simpl; [done|].
  intros Hnd. apply NoDup_cons in Hnd as [Hk Hnd].
  destruct (f kv); simpl; [|by apply IH].
  apply NoDup_cons. split; [|by apply IH].
  intros Hin. apply Hk. apply list_elem_of_In in Hin. apply list_elem_of_In.
  apply in_map_iff in Hin as (x & Hx & Hin).
  apply filter_In in Hin as [Hin _].
  apply in_map_iff. eauto.
Qed.

(** [Query(collection)] on a mapping of the store: its items, sorted by id. *)
Lemma Query_init_plain (h : heap) (p : loc) :
  Dict.wf (deref h p) ->
  Query.__init__ h (Query.Plain (VRef p)) =
  Ok (Query.Make (sort_by String.ltb fst (deref h p))).
Proof.
  intros Hwf. unfold Query.__init__. simpl.
  rewrite (sorted_ok _ _ String.ltb fst (fun _ => True)); [simpl | done | done].
  rewrite Dict_of_items_id; [done|].
  eapply Dict_wf_Permutation; [apply sort_by_perm | done].
Qed.

(** What [filtered] does on one entry. *)
Lemma filtered_Ok (h : heap) (cmp : option (value -> atom -> result bool))
    (field : string) (val : atom) (its r : pydict) :
  Query.filtered h cmp field val its = Ok r ->
  r = List.filter (fun kv =>
        match getitem h (snd kv) field with
        | Ok x => match Query.call cmp x val with Ok b => b | Err _ => false end
        | Err _ => false
        end) its.
Proof.
  revert r. induction its as [|kv its IH]; intros r; simpl.
  - by intros [= <-].
  - destruct (getitem h (snd kv) field) as [x|]; simpl; [|done].
    destruct (Query.call cmp x val) as [b|]; simpl; [|done].
    destruct (Query.filtered h cmp field val its) as [r'|]; simpl; [|done].
    intros [= <-]. rewrite (IH r' eq_refl). by destruct b.
Qed.

Lemma filtered_total (h : heap) (cmp : option (value -> atom -> result bool))
    (field : string) (val : atom) (its : pydict) :
  (forall kv, In kv its ->
     exists x b, getitem h (snd kv) field = Ok x /\ Query.call cmp x val = Ok b) ->
  exists r, Query.filtered h cmp field val its = Ok r.
Proof.
  induction its as [|kv its IH]; intros H; simpl; [eauto|].
  destruct (H kv) as (x & b & -> & Hc); [by left|]. simpl. rewrite Hc. simpl.
  destruct IH as [r ->]; [intros; apply H; by right|]. simpl. eauto.
Qed.

Lemma filtered_missing (h : heap) (cmp : option (value -> atom -> result bool))
    (field : string) (val : atom) (its : pydict) :
  (exists kv, In kv its /\ getitem h (snd kv) field = Err KeyError) ->
  exists e, Query.filtered h cmp field val its = Err e.
Proof.
  induction its as [|kv its IH]; intros (kv0 & Hin & Hkv0); simpl; [done|].
  destruct (getitem h (snd kv) field) as [x|e] eqn:E; simpl; [|eauto].
  destruct (Query.call cmp x val) as [b|e]; simpl; [|eauto].
  destruct Hin as [->|Hin]; [congruence|].
  destruct IH as [e ->]; eauto.
Qed.

Lemma getitem_document (h : heap) (v : value) (k : string) (e : exn) :
  (exists l, v = VRef l) -> getitem h v k = Err e -> e = KeyError.
Proof.
  intros [l ->]. simpl. destruct (Dict.get k (deref h l)); congruence.
Qed.

Lemma filtered_KeyError (h : heap) (cmp : option (value -> atom -> result bool))
    (field : string) (val : atom) (its : pydict) :
  documents its ->
  (forall kv x, In kv its -> getitem h (snd kv) field = Ok x ->
     exists b, Query.call cmp x val = Ok b) ->
  (exists kv, In kv its /\ getitem h (snd kv) field = Err KeyError) ->
  Query.filtered h cmp field val its = Err KeyError.
Proof.
  induction its as [|kv its IH]; intros Hdocs Hcmp (kv0 & Hin & Hkv0); simpl; [done|].
  destruct (getitem h (snd kv) field) as [x|e] eqn:E; simpl.
  - destruct (Hcmp kv x) as [b ->]; [by left | done |]. simpl.
    destruct Hin as [->|Hin]; [congruence|].
    rewrite IH; [done | | | eauto].
    + intros kv' Hkv'. apply Hdocs. by right.
    + intros kv' x' Hkv'. apply Hcmp. by right.
  - f_equal. eapply getitem_document; [|done]. apply Hdocs. by left.
Qed.

Lemma compare_func_supported (o : operator) :
  exists f, Query._compare_func (symbol o) = Some f.
Proof. destruct o; simpl; eauto. Qed.

Lemma compare_func_unsupported (op : string) :
  ~ supported op -> Query._compare_func op = None.
Proof.
  intros Hn. unfold Query._compare_func.
  destruct (String.eqb_spec op "==") as [->|_]; [destruct Hn; by exists OpEq|].
  destruct (String.eqb_spec op "<") as [->|_]; [destruct Hn; by exists OpLt|].
  destruct (String.eqb_spec op "<=") as [->|_]; [destruct Hn; by exists OpLe|].
  destruct (String.eqb_spec op ">") as [->|_]; [destruct Hn; by exists OpGt|].
  destruct (String.eqb_spec op ">=") as [->|_]; [destruct Hn; by exists OpGe|].
  done.
Qed.

Lemma compare_int (o : operator) (a b : Z) :
  Query.call (Query._compare_func (symbol o)) (VAtom (AInt a)) (AInt b) =
  Ok (int_meaning o a b).
Proof. by destruct o. Qed.

Lemma compare_str (o : operator) (s t : string) :
  Query.call (Query._compare_func (symbol o)) (VAtom (AStr s)) (AStr t) =
  Ok (str_meaning o s t).
Proof.
  destruct o; simpl; try reflexivity;
    unfold String.ltb, String.leb; rewrite ?(String.compare_antisym t s);
    by destruct (String.compare s t).
Qed.

(** ** C2: [where] with a supported operator *)

(** C2.  With a supported operator, [where] never returns anything but the
    entries whose [field] satisfies the comparison, in their order; it does
    return when every entry has [field] with a value the operator accepts.
    On integers and on strings the operators are the usual comparisons.
    [where('n', '>', 5)] over [n] in {3, 5, 8, 10} returns the documents
    with [n] in {8, 10}. *)
Theorem C2_where_keeps_satisfying
    (h : heap) (q : Query.t) (field : string) (o : operator) (val : atom) :
  Dict.wf (Query._data q) ->
  (forall q', Query.where_ h q field (symbol o) val = Ok q' ->
     Query._data q' = List.filter (satisfies h field (symbol o) val) (Query._data q))
  /\ ((forall kv, In kv (Query._data q) ->
        exists x b, getitem h (snd kv) field = Ok x
          /\ Query.call (Query._compare_func (symbol o)) x val = Ok b) ->
      exists q', Query.where_ h q field (symbol o) val = Ok q')
  /\ (forall a b, Query.call (Query._compare_func (symbol o)) (VAtom (AInt a)) (AInt b)
        = Ok (int_meaning o a b))
  /\ (forall s t, Query.call (Query._compare_func (symbol o)) (VAtom (AStr s)) (AStr t)
        = Ok (str_meaning o s t))
  /\ fst (Scenario.where_gt_5 Scenario.start)
     = Ok [Some (Scenario.n_is 10); Some (Scenario.n_is 8)].
Proof.
  intros Hwf. split_and!.
  - intros q'. unfold Query.where_.
    destruct (Query.filtered h _ field val (Query._data q)) as [r|] eqn:E; simpl; [|done].
    intros [= <-]. simpl. apply filtered_Ok in E. subst r.
    apply Dict_of_items_id. by apply Dict_wf_filter.
  - intros Hall. unfold Query.where_.
    destruct (filtered_total _ _ _ _ _ Hall) as [r ->]. simpl. eauto.
  - apply compare_int.
  - apply compare_str.
  - vm_compute. reflexivity.
Qed.

(** ** C3: [where] with an operator it does not know *)

(** C3 at the failing input: on an empty collection [where('n', '!=', 5)]
    returns an empty query and raises nothing. *)
Lemma C3_where_unknown_operator_on_empty :
  fst (Scenario.where_unknown_on_empty Scenario.start) = Ok (Query.Make []).
Proof. vm_compute. reflexivity. Qed.

(** C3, what the code does.  For an operator outside the five,
    [_compare_func] returns [None]; [where] then raises as soon as there is
    a first entry ([KeyError] if it lacks the field, [TypeError] from
    calling [None] otherwise), and returns the empty query when there is no
    entry at all. *)
Theorem C3_where_unsupported_operator
    (h : heap) (q : Query.t) (field op : string) (val : atom) :
  ~ supported op ->
  Query._compare_func op = None
  /\ (Query._data q = [] -> Query.where_ h q field op val = Ok (Query.Make []))
  /\ (Query._data q <> [] ->
      exists e, Query.where_ h q field op val = Err e
        /\ (e = KeyError \/ e = TypeError)).
Proof.
  intros Hn. pose proof (compare_func_unsupported op Hn) as Hnone.
  split_and!; [done | |].
  - intros Hq. unfold Query.where_. by rewrite Hq.
  - intros Hq. unfold Query.where_. rewrite Hnone.
    destruct (Query._data q) as [|kv its]; [done|]. simpl.
    destruct (snd kv) as [a|l]; simpl; [eauto|].
    destruct (Dict.get field (deref h l)); simpl; eauto.
Qed.

(** ** C4: [where] over a document that lacks the field *)

(** C4, as stated, fails: with documents [a: {n: 'x'}] and [b: {}], where
    [b] lacks [n], [where('n', '<', 5)] raises [TypeError], not a key
    lookup error. *)
Lemma C4_type_error_comes_first :
  fst (Scenario.where_mixed Scenario.start) = Err TypeError.
Proof. vm_compute. reflexivity. Qed.

(** A comparator, or the call of a missing one, fails with [TypeError]
    only. *)
Lemma compare_call_Err (op : string) (x : value) (val : atom) (e : exn) :
  Query.call (Query._compare_func op) x val = Err e -> e = TypeError.
Proof.
  assert (Hord : forall cmp, (cmp = atom_lt \/ cmp = atom_le \/ cmp = atom_gt \/ cmp = atom_ge) ->
            val_order cmp x (VAtom val) = Err e -> e = TypeError).
  { intros cmp Hcmp. unfold val_order. destruct x as [a|]; [|congruence].
    destruct Hcmp as [-> | [-> | [-> | ->]]];
      unfold atom_lt, atom_le, atom_gt, atom_ge, atom_order;
      destruct a, val; simpl; congruence. }
  unfold Query._compare_func.
  destruct (String.eqb op "=="); [done|].
  destruct (String.eqb op "<"); [apply Hord; tauto|].
  destruct (String.eqb op "<="); [apply Hord; tauto|].
  destruct (String.eqb op ">"); [apply Hord; tauto|].
  destruct (String.eqb op ">="); [apply Hord; tauto|].
  simpl. congruence.
Qed.

(** [filtered] stops at the first entry whose test fails, with the error
    of that test. *)
Lemma filtered_first_failure (h : heap) (op field : string) (val : atom)
    (its : pydict) :
  (exists kv, In kv its /\ getitem h (snd kv) field = Err KeyError) ->
  exists pre kv post e,
    its = pre ++ kv :: post
    /\ (forall kv', In kv' pre ->
          exists x b, getitem h (snd kv') field = Ok x
            /\ Query.call (Query._compare_func op) x val = Ok b)
    /\ Query.filtered h (Query._compare_func op) field val its = Err e
    /\ (getitem h (snd kv) field = Err e
        \/ exists x, getitem h (snd kv) field = Ok x
             /\ Query.call (Query._compare_func op) x val = Err e).
Proof.
  induction its as [|kv its IH]; intros (kv0 & Hin & Hkv0); [done|]. simpl.
  destruct (getitem h (snd kv) field) as [x|e] eqn:E.
  - destruct (Query.call (Query._compare_func op) x val) as [b|e] eqn:Ec.
    + destruct Hin as [->|Hin]; [congruence|].
      destruct IH as (pre & kv1 & post & e & -> & Hpre & Hrun & Hfail); [eauto|].
      exists (kv :: pre), kv1, post, e. split_and!; [done | | | done].
      * intros kv' [<-|Hkv']; [by exists x, b | by apply Hpre].
      * simpl. rewrite Ec. simpl. by rewrite Hrun.
    + exists [], kv, its, e. split_and!.
      * done.
      * intros ? Hx. destruct Hx.
      * simpl. by rewrite Ec.
      * right. by exists x.
  - exists [], kv, its, e. split_and!.
    + done.
    + intros ? Hx. destruct Hx.
    + done.
    + by left.
Qed.

(** C4, amended.  When some entry lacks the field, [where] raises and
    returns no result.  The error is the one of the first entry, in the
    order of the query, whose test fails: every entry before it has the
    field with a value the operator accepts; over documents it is
    [KeyError] when that entry lacks the field and [TypeError] when that
    entry has the field with a value the operator cannot compare with [val]
    (or the operator is none of the five).  So it is [KeyError] whenever
    every value found under the field can be compared. *)
Theorem C4_where_missing_field
    (h : heap) (q : Query.t) (field op : string) (val : atom) :
  (exists kv, In kv (Query._data q) /\ getitem h (snd kv) field = Err KeyError) ->
  exists pre kv post e,
    Query._data q = pre ++ kv :: post
    /\ (forall kv', In kv' pre ->
          exists x b, getitem h (snd kv') field = Ok x
            /\ Query.call (Query._compare_func op) x val = Ok b)
    /\ Query.where_ h q field op val = Err e
    /\ (documents (Query._data q) ->
        (getitem h (snd kv) field = Err KeyError /\ e = KeyError)
        \/ (exists x, getitem h (snd kv) field = Ok x
              /\ Query.call (Query._compare_func op) x val = Err TypeError
              /\ e = TypeError))
    /\ (documents (Query._data q) ->
        (forall kv' x, In kv' (Query._data q) -> getitem h (snd kv') field = Ok x ->
           exists b, Query.call (Query._compare_func op) x val = Ok b) ->
        e = KeyError).
Proof.
  intros Hmiss.
  destruct (filtered_first_failure h op field val _ Hmiss)
    as (pre & kv & post & e & Hsplit & Hpre & Hrun & Hfail).
  assert (Hkv : In kv (Query._data q)).
  { rewrite Hsplit. apply in_or_app. right. by left. }
  assert (Hkinds : documents (Query._data q) ->
            (getitem h (snd kv) field = Err KeyError /\ e = KeyError)
            \/ (exists x, getitem h (snd kv) field = Ok x
                  /\ Query.call (Query._compare_func op) x val = Err TypeError
                  /\ e = TypeError)).
  { intros Hdocs. destruct Hfail as [Hget|(x & Hget & Hcall)].
    - left. assert (e = KeyError) as ->; [|done].
      eapply getitem_document; [|done]. by apply Hdocs.
    - right. exists x. assert (e = TypeError) as ->; [|done].
      by eapply compare_call_Err. }
  exists pre, kv, post, e. split_and!; [done | done | | done |].
  - unfold Query.where_. by rewrite Hrun.
  - intros Hdocs Hcmp. destruct (Hkinds Hdocs) as [[_ ->]|(x & Hget & Hcall & _)]; [done|].
    destruct (Hcmp kv x Hkv Hget) as [b Hb]. congruence.
Qed.

(** ** C5: [order_by] *)

(** [order_by] over keys that one class of values ([P]) supplies. *)
Lemma order_by_sorts_in (P : value -> Prop)
    (h : heap) (q : Query.t) (key : string) (direction : option string) :
  (forall x y, P x -> P y -> val_lt x y = Ok (below x y)) ->
  (forall x y, P x -> P y -> below x y = true -> below y x = false) ->
  (forall x y z, P x -> P y -> P z ->
     below y x = false -> below z y = false -> below z x = false) ->
  Dict.wf (Query._data q) ->
  (forall kv, In kv (Query._data q) ->
     exists v, getitem h (snd kv) key = Ok v /\ P v) ->
  exists q',
    Query.order_by h q key direction = Ok q'
    /\ Permutation (Query._data q) (Query._data q')
    /\ (direction <> Some "DESCENDING" ->
        StronglySorted (fun a b => below (key_of h key b) (key_of h key a) = false)
          (Query._data q'))
    /\ (direction = Some "DESCENDING" ->
        StronglySorted (fun a b => below (key_of h key a) (key_of h key b) = false)
          (Query._data q'))
    /\ (forall e, In e (Query._data q) ->
        List.filter (fun a => tied (key_of h key e) (key_of h key a)) (Query._data q')
        = List.filter (fun a => tied (key_of h key e) (key_of h key a)) (Query._data q)).
Proof.
  intros Hlt Hasym Htrans Hwf Hkeys.
  set (reverse := match direction with
                  | Some d => String.eqb d "DESCENDING"
                  | None => false
                  end).
  set (its := Query._data q).
  set (kf := key_of h key).
  set (out := if reverse then rev (sort_by below kf (rev its)) else sort_by below kf its).
  assert (HP : forall kv, In kv its -> getitem h (snd kv) key = Ok (kf kv) /\ P (kf kv)).
  { intros kv Hkv. destruct (Hkeys kv Hkv) as (v & Hv & HPv).
    unfold kf, key_of. by rewrite Hv. }
  assert (Hkeyed : Forall (fun a => P (kf a)) its).
  { apply Forall_forall. intros kv Hkv. by apply HP, list_elem_of_In. }
  assert (Hperm : Permutation its out).
  { unfold out. destruct reverse; [|apply sort_by_perm].
    by rewrite <- Permutation_rev, <- sort_by_perm, <- Permutation_rev. }
  assert (Hrun : Query.order_by h q key direction = Ok (Query.Make out)).
  { unfold Query.order_by. fold reverse. fold its.
    rewrite (sorted_ok val_lt _ below kf P Hlt reverse its HP). simpl. fold out.
    rewrite Dict_of_items_id; [done|].
    by apply (Dict_wf_Permutation its). }
  exists (Query.Make out). simpl. split_and!; [done | done | | |].
  - intros Hdir. assert (reverse = false) as Hr.
    { unfold reverse. destruct direction as [d|]; [|done].
      destruct (String.eqb_spec d "DESCENDING"); congruence. }
    unfold out. rewrite Hr. by apply (sort_by_sorted below kf P).
  - intros ->. unfold out, reverse. simpl.
    by apply (rev_sort_by_sorted below kf P).
  - intros e He. destruct (HP e He) as [_ HPe].
    unfold out. destruct reverse.
    + by apply (filter_rev_sort_by below kf P).
    + by apply (filter_sort_by below kf P).
Qed.

(** C5.  Over entries that all have [key], with values [<] can order (all
    numbers or all strings), [order_by] returns the same entries sorted by
    that value: ascending unless the direction is ['DESCENDING'], which
    covers ['ASCENDING'] and an omitted direction, and descending for
    ['DESCENDING']; in both directions the entries tied with an entry keep
    their prior relative order.  [order_by('n', 'DESCENDING').limit(2)] over
    [n] in {3, 5, 8, 10} returns the document with [n] = 10, then the one
    with [n] = 8. *)
Theorem C5_order_by_sorts
    (h : heap) (q : Query.t) (key : string) (direction : option string) :
  Dict.wf (Query._data q) ->
  sortable h key (Query._data q) ->
  (exists q',
    Query.order_by h q key direction = Ok q'
    /\ Permutation (Query._data q) (Query._data q')
    /\ (direction <> Some "DESCENDING" ->
        StronglySorted (fun a b => below (key_of h key b) (key_of h key a) = false)
          (Query._data q'))
    /\ (direction = Some "DESCENDING" ->
        StronglySorted (fun a b => below (key_of h key a) (key_of h key b) = false)
          (Query._data q'))
    /\ (forall e, In e (Query._data q) ->
        List.filter (fun a => tied (key_of h key e) (key_of h key a)) (Query._data q')
        = List.filter (fun a => tied (key_of h key e) (key_of h key a)) (Query._data q)))
  /\ fst (Scenario.top_two Scenario.start)
     = Ok [Some (Scenario.n_is 10); Some (Scenario.n_is 8)].
Proof.
  intros Hwf [Hnum|Hstr]; (split; [|vm_compute; reflexivity]).
  - apply (order_by_sorts_in is_number); try done.
    + apply val_lt_number.
    + apply below_asym_number.
    + apply below_neg_trans_number.
  - apply (order_by_sorts_in is_string); try done.
    + apply val_lt_string.
    + apply below_asym_string.
    + apply below_neg_trans_string.
Qed.

(** ** C8: reading a whole collection *)

Lemma StronglySorted_strict (l : pydict) :
  Dict.wf l ->
  StronglySorted (fun a b => String.ltb (fst b) (fst a) = false) l ->
  StronglySorted (fun a b => String.ltb (fst a) (fst b) = true) l.
Proof.
  unfold Dict.wf, Dict.keys. induction 2 as [|a l Hs IH Ha]; [constructor|].
  simpl in H. apply NoDup_cons in H as [Hk Hnd].
  constructor; [by apply IH|].
  rewrite Forall_forall in Ha |- *. intros b Hb.
  apply String_ltb_total; [|by apply Ha].
  intros Heq. apply Hk. rewrite Heq.
  apply list_elem_of_In, in_map. by apply list_elem_of_In.
Qed.

(** C8.  For a collection whose path leads to a mapping,
    [CollectionReference.get()] returns one snapshot per document of the
    mapping, each holding that document, in strictly increasing
    lexicographic order of the document ids. *)
Theorem C8_collection_get_sorted_by_id
    (h : heap) (c : CollectionReference.t) (p : loc) :
  get_by_path h (CollectionReference._data c) (CollectionReference._path c)
    = Ok (VRef p) ->
  Dict.wf (deref h p) ->
  exists its,
    CollectionReference.get h c
      = Ok (map (fun kv => DocumentSnapshot.Make (snd kv)) its)
    /\ Permutation (deref h p) its
    /\ StronglySorted (fun a b => String.ltb (fst a) (fst b) = true) its.
Proof.
  intros Hres Hwf. exists (sort_by String.ltb fst (deref h p)). split_and!.
  - unfold CollectionReference.get. rewrite Hres. cbn -[Query.__init__].
    by rewrite Query_init_plain.
  - apply sort_by_perm.
  - apply StronglySorted_strict.
    + eapply Dict_wf_Permutation; [apply sort_by_perm | done].
    + apply (sort_by_sorted String.ltb fst (fun _ => True)).
      * intros x y _ _. apply String_ltb_asym.
      * intros x y z _ _ _. apply String_ltb_neg_trans.
      * by apply Forall_forall.
Qed.

(** ** C10: [order_by] over a document that lacks the sort key *)

(** C10.  When the entries of a query are documents and one of them lacks
    the sort key, [order_by] raises [KeyError], in either direction. *)
Theorem C10_order_by_missing_key
    (h : heap) (q : Query.t) (key : string) (direction : option string) :
  documents (Query._data q) ->
  (exists kv, In kv (Query._data q) /\ getitem h (snd kv) key = Err KeyError) ->
  Query.order_by h q key direction = Err KeyError.
Proof.
  intros Hdocs Hmiss. unfold Query.order_by.
  rewrite (sorted_key_error val_lt _ _ _ KeyError); [done | | done].
  intros kv e Hkv He. eapply getitem_document; [|done]. by apply Hdocs.
Qed.

(** ** C6: [set] with and without [merge], [update] *)

Lemma update_run (w : world) (d : DocumentReference.t) (doc data : loc) :
  get_by_path (objects w) (DocumentReference._data d) (DocumentReference._path d)
    = Ok (VRef doc) ->
  DocumentReference.update d data w =
  (Ok tt,
   with_objects (<[doc := Dict.update (deref (objects w) doc) (deref (objects w) data)]>
                   (objects w)) w).
Proof.
  intros H. unfold DocumentReference.update, mbind, M_bind, reading.
  by rewrite H.
Qed.

(** C6.  On an existing document, [set(data, merge=True)] is [update(data)]:
    it succeeds, and afterwards the document's mapping holds, under every
    key, the value [data] has there or else the value it held before, while
    no other mapping changes; [get()] reads that mapping.  Merging
    [{b: 3, c: 4}] into [{a: 1, b: 2}] yields [{a: 1, b: 3, c: 4}].  With
    [merge=False], [set] makes [data] itself the document: [get()] returns
    it, and only the parent collection changes. *)
Theorem C6_set_merges_or_replaces
    (w : world) (root : loc) (cpath : list string) (name : string)
    (p doc data : loc) :
  let d := DocumentReference.Make root (cpath ++ [name]) in
  get_by_path (objects w) root cpath = Ok (VRef p) ->
  Dict.get name (deref (objects w) p) = Some (VRef doc) ->
  Dict.wf (deref (objects w) data) ->
  DocumentReference.set d data true w = DocumentReference.update d data w
  /\ (exists w',
        DocumentReference.update d data w = (Ok tt, w')
        /\ (forall k,
              Dict.get k (deref (objects w') doc) =
              match Dict.get k (deref (objects w) data) with
              | Some v => Some v
              | None => Dict.get k (deref (objects w) doc)
              end)
        /\ (forall l, l <> doc -> deref (objects w') l = deref (objects w) l)
        /\ (doc ∉ visited (objects w) (VRef root) (cpath ++ [name]) ->
            DocumentReference.get (objects w') d
              = Ok (DocumentSnapshot.Make (VRef doc))))
  /\ (exists w',
        DocumentReference.set d data false w = (Ok tt, w')
        /\ (forall l, l <> p -> deref (objects w') l = deref (objects w) l)
        /\ (p ∉ visited (objects w) (VRef root) cpath ->
            DocumentReference.get (objects w') d
              = Ok (DocumentSnapshot.Make (VRef data))))
  /\ fst (Scenario.merged Scenario.start)
     = Ok (Some [("a", VAtom (AInt 1)); ("b", VAtom (AInt 3)); ("c", VAtom (AInt 4))]).
Proof.
  intros d Hres Hdoc Hwf.
  assert (Hd : get_by_path (objects w) root (cpath ++ [name]) = Ok (VRef doc)).
  { rewrite get_by_path_snoc, Hres. simpl. by rewrite Hdoc. }
  split_and!.
  - reflexivity.
  - eexists. split_and!.
    + by apply update_run.
    + intros k. simpl. by rewrite deref_insert_eq, Dict_get_update.
    + intros l Hl. simpl. by rewrite deref_insert_ne.
    + intros Hroute. unfold DocumentReference.get, d. simpl.
      by rewrite get_by_path_insert, Hd.
  - eexists. split_and!.
    + unfold DocumentReference.set, d. simpl. by apply set_by_path_snoc.
    + intros l Hl. simpl. by rewrite deref_insert_ne.
    + intros Hroute. unfold DocumentReference.get, d. simpl.
      rewrite get_by_path_snoc, get_by_path_insert, Hres by done. simpl.
      by rewrite deref_insert_eq, Dict_get_setitem_eq.
  - vm_compute. reflexivity.
Qed.

(** ** C7: [add] *)






(** What [add] does when the collection's path leads to a mapping. *)
Lemma add_run {time : Type} (now : time) (w : world) (c : CollectionReference.t)
    (data : loc) (document_id : option string) (p : loc) :
  get_by_path (objects w) (CollectionReference._data c) (CollectionReference._path c)
    = Ok (VRef p) ->
  CollectionReference.add now c data document_id w =
  let n := match document_id with
           | None => (drawn w + 20)%nat
           | Some _ => drawn w
           end in
  match target w data document_id with
  | VAtom (AStr id) =>
      if Dict.contains id (deref (objects w) p)
      then (Err AlreadyExists, World (objects w) (rand w) n)
      else (Ok (Timestamp.from_now now,
                DocumentReference.Make (CollectionReference._data c)
                  (CollectionReference._path c ++ [id])),
            World (<[p := Dict.setitem id (VRef data) (deref (objects w) p)]> (objects w))
              (rand w) n)
  | VRef _ => (Err TypeError, World (objects w) (rand w) n)
  | VAtom _ => (Err OutsideAnnotations, World (objects w) (rand w) n)
  end.
Proof.
  intros Hres. destruct w as [h rnd n]. simpl in *.
  assert (Hat : forall id m,
    CollectionReference.add_at now c data (VRef p) id (World h rnd m) =
    if Dict.contains id (deref h p) then (Err AlreadyExists, World h rnd m)
    else (Ok (Timestamp.from_now now,
              DocumentReference.Make (CollectionReference._data c)
                (CollectionReference._path c ++ [id])),
          World (<[p := Dict.setitem id (VRef data) (deref h p)]> h) rnd m)).
  { intros id m. unfold CollectionReference.add_at, mbind, M_bind, reading. simpl.
    destruct (Dict.contains id (deref h p)); [done|].
    unfold DocumentReference.set. simpl.
    by rewrite (set_by_path_snoc _ _ p) by done. }
  unfold CollectionReference.add, target. simpl.
  destruct document_id as [i|].
  - unfold mbind, M_bind, reading, mret, M_ret. simpl. rewrite Hres. apply Hat.
  - unfold CollectionReference.id_of_data, mbind, M_bind, reading, mret, M_ret,
      generate_random_string. simpl. rewrite Hres.
    destruct (Dict.get "id" (deref h data)) as [[[| | |s]|l]|]; try done; apply Hat.
Qed.



(** ** C9: a snapshot and later writes *)

(** C9, as stated, fails: the mapping a snapshot's [to_dict()] returns is
    [{a: 1}] when the snapshot is taken and [{a: 2}] after
    [update({'a': 2})]. *)
Lemma C9_update_reaches_snapshot :
  exists before after,
    fst (Scenario.snapshot_then_update Scenario.start) = Ok (before, after)
    /\ before = Some [("a", VAtom (AInt 1))]
    /\ after = Some [("a", VAtom (AInt 2))]
    /\ before <> after.
Proof. do 2 eexists. vm_compute. split_and!; [reflexivity.. | discriminate]. Qed.

(** C9, amended.  [to_dict()] returns the mapping the snapshot was built
    from, not a copy.  A later [update(data)] (or [set(data, merge=True)])
    on the document writes into that mapping, and the snapshot's
    [to_dict()] then reads the merged mapping; a later
    [set(data, merge=False)] stores [data] in the parent collection and
    leaves what the snapshot's [to_dict()] reads as it was. *)
Theorem C9_snapshot_shares_the_mapping
    (w : world) (root : loc) (cpath : list string) (name : string)
    (p doc data : loc) (s : DocumentSnapshot.t) :
  let d := DocumentReference.Make root (cpath ++ [name]) in
  get_by_path (objects w) root cpath = Ok (VRef p) ->
  p <> doc ->
  DocumentReference.get (objects w) d = Ok s ->
  DocumentSnapshot.to_dict s = VRef doc ->
  (exists w',
     DocumentReference.update d data w = (Ok tt, w')
     /\ DocumentReference.set d data true w = (Ok tt, w')
     /\ mapping (objects w') (DocumentSnapshot.to_dict s)
        = Some (Dict.update (deref (objects w) doc) (deref (objects w) data)))
  /\ (exists w',
        DocumentReference.set d data false w = (Ok tt, w')
        /\ mapping (objects w') (DocumentSnapshot.to_dict s)
           = mapping (objects w) (DocumentSnapshot.to_dict s)).
Proof.
  intros d Hres Hne Hget Hs.
  assert (Hd : get_by_path (objects w) root (cpath ++ [name]) = Ok (VRef doc)).
  { unfold DocumentReference.get, d in Hget. simpl in Hget.
    destruct (get_by_path (objects w) root (cpath ++ [name])) as [v|]; [|done].
    simpl in Hget. injection Hget as <-. simpl in Hs. by rewrite Hs. }
  split.
  - eexists. split_and!.
    + by apply update_run.
    + unfold DocumentReference.set. by apply update_run.
    + rewrite Hs. simpl. by rewrite deref_insert_eq.
  - eexists. split.
    + unfold DocumentReference.set, d. simpl. by apply set_by_path_snoc.
    + rewrite Hs. simpl. by rewrite deref_insert_ne.
Qed.

(** ** The theorems at the scenarios of the specification *)

Ltac by_computation := apply (bool_decide_unpack _); vm_compute; exact I.

(** The queries named in the scenarios are the ones [Query(collection)]
    builds over the collections written there. *)
Lemma numbers_query_built :
  Query.__init__ (objects (Scenario.after Scenario.numbers)) (Query.Plain (VRef 1%nat))
  = Ok Scenario.numbers_query.
Proof. vm_compute. reflexivity. Qed.

Lemma partial_query_built :
  Query.__init__ (objects (Scenario.after Scenario.partial)) (Query.Plain (VRef 1%nat))
  = Ok Scenario.partial_query.
Proof. vm_compute. reflexivity. Qed.

(** C1 at the document [a] of collection [c], written and then deleted. *)
Lemma C1_get_on_absent_document_at_scenario :
  let w := Scenario.after Scenario.one_document in
  let d := DocumentReference.Make 0%nat ["c"; "a"] in
  (get_by_path (objects w) 0%nat ["c"] = Ok (VRef 1%nat)
   /\ Dict.wf (deref (objects w) 1%nat)
   /\ (1%nat ∉ visited (objects w) (VRef 0%nat) ["c"])
   /\ Dict.contains "a" (deref (objects w) 1%nat) = true)
  /\ exists w1,
       DocumentReference.delete d w = (Ok tt, w1)
       /\ DocumentReference.get (objects w1) d = Err KeyError.
Proof.
  intros w d.
  assert (H1 : get_by_path (objects w) 0%nat ["c"] = Ok (VRef 1%nat))
    by (vm_compute; reflexivity).
  assert (H2 : Dict.wf (deref (objects w) 1%nat)) by by_computation.
  assert (H3 : 1%nat ∉ visited (objects w) (VRef 0%nat) ["c"]) by by_computation.
  assert (H4 : Dict.contains "a" (deref (objects w) 1%nat) = true)
    by (vm_compute; reflexivity).
  split; [repeat split; assumption|].
  destruct (C1_get_on_absent_document w 0%nat ["c"] "a" 1%nat H1 H2 H3 H4)
    as (w1 & Hdel & Hget & _).
  exists w1. split; assumption.
Defined.

(** C2 at [where('n', '>', 5)] over the four numbered documents. *)
Lemma C2_where_keeps_satisfying_at_scenario :
  let h := objects (Scenario.after Scenario.numbers) in
  let q := Scenario.numbers_query in
  Dict.wf (Query._data q)
  /\ exists q',
       Query.where_ h q "n" ">" (AInt 5) = Ok q'
       /\ Query._data q' = List.filter (satisfies h "n" ">" (AInt 5)) (Query._data q).
Proof.
  intros h q.
  assert (Hwf : Dict.wf (Query._data q)) by by_computation.
  split; [assumption|].
  destruct (C2_where_keeps_satisfying h q "n" OpGt (AInt 5) Hwf)
    as (Hpart & Htotal & _).
  destruct Htotal as [q' Hq'].
  - intros kv Hkv. simpl in Hkv.
    destruct Hkv as [<-|[<-|[<-|[<-|[]]]]]; do 2 eexists; vm_compute;
      split; reflexivity.
  - exists q'. split; [assumption | apply Hpart; assumption].
Defined.

(** C3 at the operator ['!='] and a query without entries. *)
Lemma C3_where_unsupported_operator_at_scenario :
  ~ supported "!="
  /\ Query._compare_func "!=" = None
  /\ Query.where_ ∅ (Query.Make []) "n" "!=" (AInt 5) = Ok (Query.Make []).
Proof.
  assert (Hn : ~ supported "!=").
  { intros [o Ho]. destruct o; discriminate Ho. }
  split; [assumption|].
  destruct (C3_where_unsupported_operator ∅ (Query.Make []) "n" "!=" (AInt 5) Hn)
    as (Hnone & Hempty & _).
  split; [assumption | apply Hempty; reflexivity].
Defined.

(** C4 at documents [a: {n: 3}] and [b: {}], filtered by [n < 5]. *)
Lemma C4_where_missing_field_at_scenario :
  let h := objects (Scenario.after Scenario.partial) in
  let q := Scenario.partial_query in
  (exists kv, In kv (Query._data q) /\ getitem h (snd kv) "n" = Err KeyError)
  /\ Query.where_ h q "n" "<" (AInt 5) = Err KeyError.
Proof.
  intros h q.
  assert (Hmiss : exists kv, In kv (Query._data q)
                          /\ getitem h (snd kv) "n" = Err KeyError).
  { exists ("b", VRef 5%nat). split; [right; by left | vm_compute; reflexivity]. }
  split; [assumption|].
  assert (Hdocs : documents (Query._data q)).
  { intros kv Hkv. simpl in Hkv. destruct Hkv as [<-|[<-|[]]]; by eexists. }
  assert (Hcmp : forall kv x, In kv (Query._data q) -> getitem h (snd kv) "n" = Ok x ->
                   exists b, Query.call (Query._compare_func "<") x (AInt 5) = Ok b).
  { intros kv x Hkv. simpl in Hkv. destruct Hkv as [<-|[<-|[]]]; vm_compute;
      intros [= <-]; by eexists. }
  destruct (C4_where_missing_field h q "n" "<" (AInt 5) Hmiss)
    as (pre & kv & post & e & _ & _ & Hrun & _ & Hkey).
  rewrite <- (Hkey Hdocs Hcmp). exact Hrun.
Defined.

(** C5 at [order_by('n', 'DESCENDING')] over the four numbered documents. *)
Lemma C5_order_by_sorts_at_scenario :
  let h := objects (Scenario.after Scenario.numbers) in
  let q := Scenario.numbers_query in
  (Dict.wf (Query._data q) /\ sortable h "n" (Query._data q))
  /\ exists q',
       Query.order_by h q "n" (Some "DESCENDING") = Ok q'
       /\ Permutation (Query._data q) (Query._data q').
Proof.
  intros h q.
  assert (Hwf : Dict.wf (Query._data q)) by by_computation.
  assert (Hs : sortable h "n" (Query._data q)).
  { left. intros kv Hkv. simpl in Hkv.
    destruct Hkv as [<-|[<-|[<-|[<-|[]]]]]; eexists;
      (split; [vm_compute; reflexivity | by do 2 eexists]). }
  split; [split; assumption|].
  destruct (C5_order_by_sorts h q "n" (Some "DESCENDING") Hwf Hs)
    as [(q' & Hrun & Hperm & _) _].
  exists q'. split; assumption.
Defined.

(** C6 at the document [a] of collection [c] and an empty [data]. *)
Lemma C6_set_merges_or_replaces_at_scenario :
  let w := Scenario.after Scenario.one_document in
  let d := DocumentReference.Make 0%nat ["c"; "a"] in
  (get_by_path (objects w) 0%nat ["c"] = Ok (VRef 1%nat)
   /\ Dict.get "a" (deref (objects w) 1%nat) = Some (VRef 3%nat)
   /\ Dict.wf (deref (objects w) 2%nat))
  /\ DocumentReference.set d 2%nat true w = DocumentReference.update d 2%nat w.
Proof.
  intros w d.
  assert (H1 : get_by_path (objects w) 0%nat ["c"] = Ok (VRef 1%nat))
    by (vm_compute; reflexivity).
  assert (H2 : Dict.get "a" (deref (objects w) 1%nat) = Some (VRef 3%nat))
    by (vm_compute; reflexivity).
  assert (H3 : Dict.wf (deref (objects w) 2%nat)) by by_computation.
  split; [repeat split; assumption|].
  destruct (C6_set_merges_or_replaces w 0%nat ["c"] "a" 1%nat 3%nat 2%nat H1 H2 H3)
    as [Hsame _].
  exact Hsame.
Defined.


(** C8 at the collection of the four numbered documents. *)
Lemma C8_collection_get_sorted_by_id_at_scenario :
  let h := objects (Scenario.after Scenario.numbers) in
  let c := CollectionReference.Make 0%nat ["nums"] in
  (get_by_path h 0%nat ["nums"] = Ok (VRef 1%nat) /\ Dict.wf (deref h 1%nat))
  /\ exists its,
       CollectionReference.get h c
         = Ok (map (fun kv => DocumentSnapshot.Make (snd kv)) its)
       /\ StronglySorted (fun a b => String.ltb (fst a) (fst b) = true) its.
Proof.
  intros h c.
  assert (H1 : get_by_path h 0%nat ["nums"] = Ok (VRef 1%nat))
    by (vm_compute; reflexivity).
  assert (H2 : Dict.wf (deref h 1%nat)) by by_computation.
  split; [split; assumption|].
  destruct (C8_collection_get_sorted_by_id h c 1%nat H1 H2)
    as (its & Hget & _ & Hsorted).
  exists its. split; assumption.
Defined.

(** C9 at a snapshot of the document [a] of collection [c]. *)
Lemma C9_snapshot_shares_the_mapping_at_scenario :
  let w := Scenario.after Scenario.one_document in
  let d := DocumentReference.Make 0%nat ["c"; "a"] in
  let s := DocumentSnapshot.Make (VRef 3%nat) in
  (get_by_path (objects w) 0%nat ["c"] = Ok (VRef 1%nat)
   /\ 1%nat <> 3%nat
   /\ DocumentReference.get (objects w) d = Ok s
   /\ DocumentSnapshot.to_dict s = VRef 3%nat)
  /\ exists w',
       DocumentReference.update d 2%nat w = (Ok tt, w')
       /\ mapping (objects w') (DocumentSnapshot.to_dict s)
          = Some (Dict.update (deref (objects w) 3%nat) (deref (objects w) 2%nat)).
Proof.
  intros w d s.
  assert (H1 : get_by_path (objects w) 0%nat ["c"] = Ok (VRef 1%nat))
    by (vm_compute; reflexivity).
  assert (H2 : 1%nat <> 3%nat) by discriminate.
  assert (H3 : DocumentReference.get (objects w) d = Ok s)
    by (vm_compute; reflexivity).
  assert (H4 : DocumentSnapshot.to_dict s = VRef 3%nat) by reflexivity.
  split; [repeat split; assumption|].
  destruct (C9_snapshot_shares_the_mapping w 0%nat ["c"] "a" 1%nat 3%nat 2%nat s
              H1 H2 H3 H4) as [(w' & Hup & _ & Hmap) _].
  exists w'. split; assumption.
Defined.

(** C10 at documents [a: {n: 3}] and [b: {}], ordered by [n]. *)
Lemma C10_order_by_missing_key_at_scenario :
  let h := objects (Scenario.after Scenario.partial) in
  let q := Scenario.partial_query in
  (documents (Query._data q)
   /\ exists kv, In kv (Query._data q) /\ getitem h (snd kv) "n" = Err KeyError)
  /\ Query.order_by h q "n" None = Err KeyError.
Proof.
  intros h q.
  assert (H1 : documents (Query._data q)).
  { intros kv Hkv. simpl in Hkv. destruct Hkv as [<-|[<-|[]]]; by eexists. }
  assert (H2 : exists kv, In kv (Query._data q)
                       /\ getitem h (snd kv) "n" = Err KeyError).
  { exists ("b", VRef 5%nat). split; [right; by left | vm_compute; reflexivity]. }
  split; [split; assumption|].
  exact (C10_order_by_missing_key h q "n" None H1 H2).
Defined.

(** * Further properties of the store *)

(** ** Writes through a path *)

(** X1.  A write through a path that raises leaves the world as it was:
    [set_by_path] and [delete_by_path] change nothing unless they succeed.
    Neither creates a missing ancestor: the error of the lookup of
    [path[:-1]] is the error of the write, and an empty path is an
    [IndexError]. *)
Theorem X1_failed_write_changes_nothing
    (w : world) (data : loc) (path : list string) (v : value) :
  (forall e, fst (set_by_path data path v w) = Err e ->
     snd (set_by_path data path v w) = w)
  /\ (forall e, fst (delete_by_path data path w) = Err e ->
        snd (delete_by_path data path w) = w)
  /\ (forall e, get_by_path (objects w) data (removelast path) = Err e ->
        set_by_path data path v w = (Err e, w)
        /\ delete_by_path data path w = (Err e, w))
  /\ (path = [] ->
        set_by_path data path v w = (Err IndexError, w)
        /\ delete_by_path data path w = (Err IndexError, w)).
Proof.
  unfold set_by_path, delete_by_path, mbind, M_bind, reading, setitem, delitem.
  split_and!.
  - intros e.
    destruct (get_by_path (objects w) data (removelast path)) as [parent|]; [|done].
    destruct (last_segment path); [|done]. by destruct parent.
  - intros e.
    destruct (get_by_path (objects w) data (removelast path)) as [parent|]; [|done].
    destruct (last_segment path) as [k|]; [|done].
    destruct parent as [a|l]; [done|].
    by destruct (Dict.delitem k (deref (objects w) l)).
  - intros e ->. done.
  - intros ->. done.
Qed.

(** X2.  When [path[:-1]] leads to a mapping, [set_by_path] succeeds
    whatever is stored: a key the mapping has keeps its place and takes the
    new value, a key it lacks is added last, every other key keeps its
    value, and no other mapping changes.  [get_by_path] then reads the
    value back, provided the way to the parent does not go through the
    parent itself. *)
Theorem X2_set_then_get
    (w : world) (data p : loc) (path : list string) (k : string) (v : value) :
  get_by_path (objects w) data path = Ok (VRef p) ->
  exists w',
    set_by_path data (path ++ [k]) v w = (Ok tt, w')
    /\ Dict.keys (deref (objects w') p)
       = (if Dict.contains k (deref (objects w) p)
          then Dict.keys (deref (objects w) p)
          else Dict.keys (deref (objects w) p) ++ [k])
    /\ (forall k', k' <> k ->
          Dict.get k' (deref (objects w') p) = Dict.get k' (deref (objects w) p))
    /\ (forall l, l <> p -> deref (objects w') l = deref (objects w) l)
    /\ (p ∉ visited (objects w) (VRef data) path ->
        get_by_path (objects w') data (path ++ [k]) = Ok v).
Proof.
  intros Hres. eexists. split_and!.
  - by apply set_by_path_snoc.
  - simpl. by rewrite deref_insert_eq, Dict_keys_setitem.
  - intros k' Hk'. simpl. rewrite deref_insert_eq.
    apply Dict_get_setitem_ne. congruence.
  - intros l Hl. simpl. by rewrite deref_insert_ne.
  - intros Hroute. simpl.
    rewrite get_by_path_snoc, get_by_path_insert, Hres by done. simpl.
    by rewrite deref_insert_eq, Dict_get_setitem_eq.
Qed.

Lemma Dict_keys_delitem (k : string) (d d' : pydict) :
  Dict.wf d -> Dict.delitem k d = Some d' ->
  Dict.keys d' = List.filter (fun k' => negb (String.eqb k' k)) (Dict.keys d).
Proof.
  unfold Dict.wf, Dict.keys. revert d'.
  induction d as [|[k0 v0] d IH]; intros d' Hnd; simpl; [done|].
  apply NoDup_cons in Hnd as [Hk0 Hnd]. rewrite (String.eqb_sym k0 k).
  destruct (String.eqb_spec k k0) as [->|Hne]; simpl.
  - intros [= <-]. symmetry. apply forallb_filter_id.
    apply forallb_forall. intros x Hx. apply negb_true_iff, String.eqb_neq.
    intros ->. by apply Hk0, list_elem_of_In.
  - destruct (Dict.delitem k d) as [r|]; [|done].
    intros [= <-]. simpl. f_equal. by apply IH.
Qed.

(** X3.  [delete()] of a document the collection holds removes that id and
    nothing else: the other ids keep their order and their documents, and
    no other mapping changes.  In particular the mapping of the deleted
    document is not cleared, so a snapshot taken before still reads it. *)
Theorem X3_delete_removes_one_id
    (w : world) (root p : loc) (cpath : list string) (name : string) :
  let d := DocumentReference.Make root (cpath ++ [name]) in
  get_by_path (objects w) root cpath = Ok (VRef p) ->
  Dict.wf (deref (objects w) p) ->
  Dict.contains name (deref (objects w) p) = true ->
  exists w',
    DocumentReference.delete d w = (Ok tt, w')
    /\ Dict.keys (deref (objects w') p)
       = List.filter (fun k => negb (String.eqb k name)) (Dict.keys (deref (objects w) p))
    /\ (forall k, k <> name ->
          Dict.get k (deref (objects w') p) = Dict.get k (deref (objects w) p))
    /\ (forall l, l <> p -> deref (objects w') l = deref (objects w) l)
    /\ (forall s doc, DocumentReference.get (objects w) d = Ok s ->
          DocumentSnapshot.to_dict s = VRef doc -> doc <> p ->
          mapping (objects w') (DocumentSnapshot.to_dict s)
          = mapping (objects w) (DocumentSnapshot.to_dict s)).
Proof.
  intros d Hres Hwf Hin.
  destruct (Dict_delitem_Some _ _ Hin) as [d' Hdel].
  destruct (Dict_get_delitem _ _ _ Hwf Hdel) as [_ Hother].
  exists (with_objects (<[p := d']> (objects w)) w). split_and!.
  - unfold DocumentReference.delete, d. simpl.
    rewrite (delete_by_path_snoc _ _ p) by done. by rewrite Hdel.
  - simpl. rewrite deref_insert_eq. by apply Dict_keys_delitem.
  - intros k Hk. simpl. rewrite deref_insert_eq. by apply Hother.
  - intros l Hl. simpl. by rewrite deref_insert_ne.
  - intros s doc _ -> Hdoc. simpl. by rewrite deref_insert_ne.
Qed.

(** X4.  [delete()] of a document the collection does not hold raises
    [KeyError] and changes nothing; so does a second [delete()] after one
    that succeeded. *)
Theorem X4_delete_absent_raises
    (w : world) (root p : loc) (cpath : list string) (name : string) :
  let d := DocumentReference.Make root (cpath ++ [name]) in
  get_by_path (objects w) root cpath = Ok (VRef p) ->
  Dict.wf (deref (objects w) p) ->
  p ∉ visited (objects w) (VRef root) cpath ->
  (Dict.contains name (deref (objects w) p) = false ->
     DocumentReference.delete d w = (Err KeyError, w))
  /\ (forall w', DocumentReference.delete d w = (Ok tt, w') ->
        DocumentReference.delete d w' = (Err KeyError, w')).
Proof.
  intros d Hres Hwf Hroute. unfold DocumentReference.delete, d. simpl. split.
  - intros Hout. rewrite (delete_by_path_snoc _ _ p) by done.
    by rewrite Dict_delitem_None.
  - intros w'. rewrite (delete_by_path_snoc _ _ p) by done.
    destruct (Dict.delitem name (deref (objects w) p)) as [d'|] eqn:Hdel; [|done].
    intros [= <-]. destruct (Dict_get_delitem _ _ _ Hwf Hdel) as [Hgone _].
    rewrite (delete_by_path_snoc _ _ p); simpl.
    + rewrite deref_insert_eq, Dict_delitem_None; [done|].
      unfold Dict.contains. by rewrite Hgone.
    + by rewrite get_by_path_insert.
Qed.

(** ** Handles of documents *)

(** What [document(name)] does when the collection's path leads to a
    mapping. *)
Lemma document_run (w : world) (root p : loc) (cpath : list string) (name : string) :
  get_by_path (objects w) root cpath = Ok (VRef p) ->
  CollectionReference.document (CollectionReference.Make root cpath) (Some name) w =
  (Ok (DocumentReference.Make root (cpath ++ [name])),
   if Dict.contains name (deref (objects w) p) then w
   else with_objects
          (<[p := Dict.setitem name (VRef (fresh (dom (objects w)))) (deref (objects w) p)]>
             (<[fresh (dom (objects w)) := []]> (objects w))) w).
Proof.
  intros Hres.
  unfold CollectionReference.document, mbind, M_bind, reading, mret, M_ret. simpl.
  rewrite Hres. simpl.
  destruct (Dict.contains name (deref (objects w) p)); [done|].
  unfold new_dict. simpl.
  rewrite (set_by_path_snoc _ _ p); simpl.
  - by rewrite deref_new_empty by apply fresh_unused.
  - by rewrite get_by_path_new_empty by apply fresh_unused.
Qed.

(** The path of a collection still leads to its mapping after [document]
    has materialized an entry in it. *)
Lemma get_by_path_materialized (h : heap) (root p l : loc) (cpath : list string)
    (d : pydict) :
  h !! l = None ->
  p ∉ visited h (VRef root) cpath ->
  get_by_path (<[p := d]> (<[l := []]> h)) root cpath = get_by_path h root cpath.
Proof.
  intros Hl Hroute. apply get_by_path_frame. intros l' Hl'.
  rewrite deref_insert_ne by (intros ->; by apply Hroute).
  by apply deref_new_empty.
Qed.

(** After [document(name)] the collection holds [name], is still found at
    its path, and has kept its other ids. *)
Lemma document_settles (w : world) (root p : loc) (cpath : list string) (name : string) :
  get_by_path (objects w) root cpath = Ok (VRef p) ->
  p ∉ visited (objects w) (VRef root) cpath ->
  exists w1,
    CollectionReference.document (CollectionReference.Make root cpath) (Some name) w
      = (Ok (DocumentReference.Make root (cpath ++ [name])), w1)
    /\ get_by_path (objects w1) root cpath = Ok (VRef p)
    /\ Dict.contains name (deref (objects w1) p) = true
    /\ (forall k, k <> name ->
          Dict.get k (deref (objects w1) p) = Dict.get k (deref (objects w) p))
    /\ (Dict.contains name (deref (objects w) p) = true -> w1 = w)
    /\ (Dict.contains name (deref (objects w) p) = false ->
        objects w1 =
        <[p := Dict.setitem name (VRef (fresh (dom (objects w)))) (deref (objects w) p)]>
          (<[fresh (dom (objects w)) := []]> (objects w))).
Proof.
  intros Hres Hroute. rewrite (document_run w root p) by done.
  destruct (Dict.contains name (deref (objects w) p)) eqn:Hin.
  - exists w. by split_and!.
  - eexists. split; [reflexivity|]. simpl. split_and!.
    + rewrite get_by_path_materialized; [done | apply fresh_unused | done].
    + rewrite deref_insert_eq. unfold Dict.contains.
      by rewrite Dict_get_setitem_eq.
    + intros k Hk. by rewrite deref_insert_eq, Dict_get_setitem_ne by congruence.
    + done.
    + done.
Qed.

(** X5.  [document(name)] is idempotent.  When the collection holds [name]
    it writes nothing, so the document keeps its data; when it does not, it
    adds [name] and leaves the other ids alone.  Either way the handle is
    the one at the collection's path followed by [name], its [id] is
    [name], and asking again returns the same handle and writes nothing. *)
Theorem X5_document_is_idempotent
    (w : world) (root p : loc) (cpath : list string) (name : string) :
  let c := CollectionReference.Make root cpath in
  let d := DocumentReference.Make root (cpath ++ [name]) in
  get_by_path (objects w) root cpath = Ok (VRef p) ->
  p ∉ visited (objects w) (VRef root) cpath ->
  (Dict.contains name (deref (objects w) p) = true ->
     CollectionReference.document c (Some name) w = (Ok d, w))
  /\ DocumentReference.id d = Ok name
  /\ exists w1,
       CollectionReference.document c (Some name) w = (Ok d, w1)
       /\ CollectionReference.document c (Some name) w1 = (Ok d, w1)
       /\ Dict.contains name (deref (objects w1) p) = true
       /\ (forall k, k <> name ->
             Dict.get k (deref (objects w1) p) = Dict.get k (deref (objects w) p)).
Proof.
  intros c d Hres Hroute. unfold c, d. split_and!.
  - intros Hin. by rewrite (document_run w root p), Hin.
  - unfold DocumentReference.id. simpl. apply last_segment_snoc.
  - destruct (document_settles w root p cpath name Hres Hroute)
      as (w1 & Hdoc & Hres1 & Hin1 & Hother & _).
    exists w1. split_and!; [done | | done | done].
    by rewrite (document_run w1 root p), Hin1.
Qed.

Lemma for_each_document (w : world) (root p : loc) (cpath : list string)
    (ks : list string) :
  get_by_path (objects w) root cpath = Ok (VRef p) ->
  (forall k, In k ks -> Dict.contains k (deref (objects w) p) = true) ->
  for_each (fun key =>
      CollectionReference.document (CollectionReference.Make root cpath) (Some key)) ks w
  = (Ok (map (fun k => DocumentReference.Make root (cpath ++ [k])) ks), w).
Proof.
  intros Hres. induction ks as [|k ks IH]; intros Hks; simpl; [done|].
  unfold mbind, M_bind.
  rewrite (document_run w root p), (Hks k) by (done || by left).
  rewrite IH; [done|]. intros k' Hk'. apply Hks. by right.
Qed.

(** X6.  [list_documents] returns one handle per id of the collection, in
    the order of the collection's mapping (the order of first writing, not
    the sorted order of [get()]), whatever [page_size] is, and writes
    nothing. *)
Theorem X6_list_documents
    (w : world) (root p : loc) (cpath : list string) (page_size : option Z) :
  get_by_path (objects w) root cpath = Ok (VRef p) ->
  CollectionReference.list_documents (CollectionReference.Make root cpath) page_size w
  = (Ok (map (fun k => DocumentReference.Make root (cpath ++ [k]))
           (Dict.keys (deref (objects w) p))), w).
Proof.
  intros Hres. unfold CollectionReference.list_documents.
  unfold mbind at 1. unfold M_bind at 1. unfold reading. simpl.
  rewrite Hres. simpl.
  apply (for_each_document w root p); [done|].
  intros k Hk. apply Dict_contains_keys. by apply list_elem_of_In.
Qed.

(** X7.  A document that [document(name)] has materialized blocks [add]:
    [add(data, name)] raises [AlreadyExists] and writes nothing, although
    the snapshot of that document has [exists == False] when [name] was
    new. *)
Theorem X7_add_after_document
    {time : Type} (now : time) (w : world) (root p data : loc)
    (cpath : list string) (name : string) :
  let c := CollectionReference.Make root cpath in
  let d := DocumentReference.Make root (cpath ++ [name]) in
  get_by_path (objects w) root cpath = Ok (VRef p) ->
  p ∉ visited (objects w) (VRef root) cpath ->
  is_Some (objects w !! p) ->
  exists w1,
    CollectionReference.document c (Some name) w = (Ok d, w1)
    /\ CollectionReference.add now c data (Some name) w1 = (Err AlreadyExists, w1)
    /\ (Dict.contains name (deref (objects w) p) = false ->
        exists s, DocumentReference.get (objects w1) d = Ok s
          /\ DocumentSnapshot.exists_ (objects w1) s = false).
Proof.
  intros c d Hres Hroute Hlive.
  destruct (document_settles w root p cpath name Hres Hroute)
    as (w1 & Hdoc & Hres1 & Hin1 & _ & _ & Hnew).
  exists w1. split_and!; [done | |].
  - rewrite (add_run now w1 c data (Some name) p) by done. simpl.
    rewrite Hin1. by destruct w1.
  - intros Hout. specialize (Hnew Hout).
    eexists. unfold DocumentReference.get, d. simpl.
    rewrite get_by_path_snoc, Hres1. simpl.
    rewrite Hnew, deref_insert_eq, Dict_get_setitem_eq. simpl.
    split; [reflexivity|]. unfold DocumentSnapshot.exists_. simpl.
    rewrite deref_insert_ne, deref_insert_eq; [done|].
    intros ->. destruct Hlive as [x Hx]. by rewrite fresh_unused in Hx.
Qed.

(** X8.  On a handle whose id the collection does not hold (a deleted
    document), [update(data)] and [set(data, merge=True)] raise [KeyError]
    and write nothing, while [set(data)] without merge succeeds and adds the
    document as the last entry of the collection. *)
Theorem X8_set_creates_update_does_not
    (w : world) (root p data : loc) (cpath : list string) (name : string) :
  let d := DocumentReference.Make root (cpath ++ [name]) in
  get_by_path (objects w) root cpath = Ok (VRef p) ->
  Dict.contains name (deref (objects w) p) = false ->
  DocumentReference.update d data w = (Err KeyError, w)
  /\ DocumentReference.set d data true w = (Err KeyError, w)
  /\ exists w',
       DocumentReference.set d data false w = (Ok tt, w')
       /\ deref (objects w') p = deref (objects w) p ++ [(name, VRef data)].
Proof.
  intros d Hres Hout.
  assert (Hnone : Dict.get name (deref (objects w) p) = None).
  { unfold Dict.contains in Hout. by destruct (Dict.get name (deref (objects w) p)). }
  assert (Hup : DocumentReference.update d data w = (Err KeyError, w)).
  { unfold DocumentReference.update, d, mbind, M_bind, reading. simpl.
    rewrite get_by_path_snoc, Hres. simpl. by rewrite Hnone. }
  split_and!; [done | done |].
  eexists. split.
  - unfold DocumentReference.set, d. simpl. by apply set_by_path_snoc.
  - simpl. rewrite deref_insert_eq. apply Dict_setitem_new.
    by apply Dict_get_None.
Qed.

(** ** Queries *)

Lemma Dict_wf_firstn (n : nat) (l : pydict) : Dict.wf l -> Dict.wf (firstn n l).
Proof.
  unfold Dict.wf, Dict.keys. revert l.
  induction n as [|n IH]; intros [|kv l] Hnd; simpl; try constructor.
  - apply NoDup_cons in Hnd as [Hk Hnd]. intros Hin. apply Hk.
    apply list_elem_of_In in Hin. apply list_elem_of_In.
    apply in_map_iff in Hin as (x & Hx & Hin). apply in_map_iff.
    exists x. split; [done|].
    apply list_elem_of_In, (subseteq_take n l). by apply list_elem_of_In.
  - apply IH. by apply NoDup_cons in Hnd as [_ Hnd].
Qed.

(** The slice [limit] takes, for a count [islice] accepts. *)
Lemma limit_run (h : heap) (q : Query.t) (n : Z) :
  Dict.wf (Query._data q) -> 0 <= n <= Query.maxsize ->
  Query.limit h q n = Ok (Query.Make (firstn (Z.to_nat n) (Query._data q))).
Proof.
  intros Hwf Hn. unfold Query.limit, Query.islice.
  destruct (Z.ltb_spec n 0); [lia|].
  destruct (Z.ltb_spec Query.maxsize n); [lia|]. simpl.
  by rewrite Dict_of_items_id by by apply Dict_wf_firstn.
Qed.

(** X9.  [limit(n)] raises [ValueError] for a negative [n] and for an [n]
    above [sys.maxsize]; for the counts in between it keeps the first [n]
    entries in their order, all of them when [n] is at least their number.
    Two limits in a row keep as many as the smaller. *)
Theorem X9_limit_keeps_a_prefix
    (h : heap) (q : Query.t) (n : Z) :
  Dict.wf (Query._data q) ->
  (n < 0 \/ Query.maxsize < n -> Query.limit h q n = Err ValueError)
  /\ (0 <= n <= Query.maxsize ->
      Query.limit h q n = Ok (Query.Make (firstn (Z.to_nat n) (Query._data q))))
  /\ (Z.of_nat (length (Query._data q)) <= n <= Query.maxsize ->
      Query.limit h q n = Ok q)
  /\ (forall m, 0 <= n <= Query.maxsize -> 0 <= m <= Query.maxsize ->
        (q1 ← Query.limit h q n; Query.limit h q1 m) = Query.limit h q (Z.min n m)).
Proof.
  intros Hwf. split_and!.
  - intros Hn. unfold Query.limit, Query.islice.
    destruct (Z.ltb_spec n 0); [done|].
    destruct (Z.ltb_spec Query.maxsize n); [done | lia].
  - by apply limit_run.
  - intros Hlen. rewrite limit_run by (done || lia).
    rewrite firstn_all2 by lia. by destruct q.
  - intros m Hn Hm. rewrite (limit_run h q n Hwf Hn). simpl.
    rewrite (limit_run h _ m); [|simpl; by apply Dict_wf_firstn | done]. simpl.
    rewrite (limit_run h q (Z.min n m) Hwf) by lia.
    by rewrite firstn_firstn, Z2Nat.inj_min, Nat.min_comm.
Qed.

(** What [where] returns, when it returns. *)
Lemma where_Ok (h : heap) (q q' : Query.t) (field op : string) (val : atom) :
  Dict.wf (Query._data q) ->
  Query.where_ h q field op val = Ok q' ->
  Query._data q' = List.filter (satisfies h field op val) (Query._data q).
Proof.
  intros Hwf. unfold Query.where_.
  destruct (Query.filtered h _ field val (Query._data q)) as [r|] eqn:E; simpl; [|done].
  intros [= <-]. simpl. apply filtered_Ok in E. subst r.
  apply Dict_of_items_id. by apply Dict_wf_filter.
Qed.

Lemma filter_filter_andb {A} (f g : A -> bool) (l : list A) :
  List.filter g (List.filter f l) = List.filter (fun x => f x && g x) l.
Proof.
  induction l as [|x l IH]; simpl; [done|].
  destruct (f x); simpl; [|done]. destruct (g x); by rewrite IH.
Qed.

(** X10.  Chained [where]s compose: when both return, the result holds
    exactly the entries that satisfy both comparisons, in the order of the
    query; every entry of the result is an entry of the query; and chaining
    the two in the other order, if that returns too, gives the same
    result. *)
Theorem X10_where_chain
    (h : heap) (q q1 q2 : Query.t) (f1 op1 f2 op2 : string) (v1 v2 : atom) :
  Dict.wf (Query._data q) ->
  Query.where_ h q f1 op1 v1 = Ok q1 ->
  Query.where_ h q1 f2 op2 v2 = Ok q2 ->
  Query._data q2
    = List.filter (fun kv => satisfies h f1 op1 v1 kv && satisfies h f2 op2 v2 kv)
        (Query._data q)
  /\ (forall kv, In kv (Query._data q2) -> In kv (Query._data q))
  /\ (forall q1' q2',
        Query.where_ h q f2 op2 v2 = Ok q1' ->
        Query.where_ h q1' f1 op1 v1 = Ok q2' -> q2' = q2).
Proof.
  intros Hwf H1 H2.
  pose proof (where_Ok _ _ _ _ _ _ Hwf H1) as E1.
  assert (Hwf1 : Dict.wf (Query._data q1)) by (rewrite E1; by apply Dict_wf_filter).
  pose proof (where_Ok _ _ _ _ _ _ Hwf1 H2) as E2.
  rewrite E1, filter_filter_andb in E2. split_and!.
  - done.
  - intros kv. rewrite E2. intros Hin. by apply filter_In in Hin as [Hin _].
  - intros q1' q2' H1' H2'.
    pose proof (where_Ok _ _ _ _ _ _ Hwf H1') as E1'.
    assert (Hwf1' : Dict.wf (Query._data q1')) by (rewrite E1'; by apply Dict_wf_filter).
    pose proof (where_Ok _ _ _ _ _ _ Hwf1' H2') as E2'.
    rewrite E1', filter_filter_andb in E2'.
    destruct q2 as [d2], q2' as [d2']. simpl in *. f_equal.
    rewrite E2, E2'. apply filter_ext. intros kv. apply andb_comm.
Qed.

(** X11.  [where(field, '==', value)] never raises over entries that have
    the field: [==] is defined between values of any kinds (a mapping, a
    [None], a [str] and a number are simply unequal, [True] equals [1]), so
    the result is the entries whose value equals [value]. *)
Theorem X11_where_equal_is_total
    (h : heap) (q : Query.t) (field : string) (val : atom) :
  Dict.wf (Query._data q) ->
  (forall kv, In kv (Query._data q) -> exists x, getitem h (snd kv) field = Ok x) ->
  Query.where_ h q field "==" val
  = Ok (Query.Make
          (List.filter (fun kv => val_eq (key_of h field kv) val) (Query._data q))).
Proof.
  intros Hwf Hall. unfold Query.where_.
  assert (Hf : Query.filtered h (Query._compare_func "==") field val (Query._data q)
               = Ok (List.filter (fun kv => val_eq (key_of h field kv) val)
                       (Query._data q))).
  { clear Hwf. induction (Query._data q) as [|kv its IH]; simpl; [done|].
    destruct (Hall kv) as [x Hx]; [by left|].
    unfold key_of at 1. rewrite Hx. simpl.
    rewrite IH by (intros; apply Hall; by right). simpl.
    by destruct (val_eq x val). }
  rewrite Hf. simpl. by rewrite Dict_of_items_id by by apply Dict_wf_filter.
Qed.

(** ** When [sorted] can compare *)

Lemma val_lt_Ok_kind (x y : value) (b : bool) :
  val_lt x y = Ok b ->
  (is_number x /\ is_number y) \/ (is_string x /\ is_string y).
Proof.
  unfold val_lt, val_order, atom_lt, atom_order, is_number, is_string.
  destruct x as [a|]; [|done]. destruct y as [c|]; [|done].
  destruct a, c; simpl; try done; intros _;
    try (left; split; do 2 eexists; split; reflexivity).
  right. split; eexists; reflexivity.
Qed.

Lemma val_lt_Err (x y : value) (e : exn) : val_lt x y = Err e -> e = TypeError.
Proof.
  unfold val_lt, val_order, atom_lt, atom_order.
  destruct x as [a|]; [|congruence]. destruct y as [c|]; [|congruence].
  destruct a, c; simpl; congruence.
Qed.

Lemma number_not_string (v : value) : is_number v -> is_string v -> False.
Proof. intros (a & n & -> & Ha) [s [= ->]]. discriminate Ha. Qed.

Section IsortRuns.
Context {A : Type}.
Implicit Types (d s : list (value * A)) (x : value * A).

Let numbers d : Prop := forall x, In x d -> is_number (fst x).
Let strings d : Prop := forall x, In x d -> is_string (fst x).

Lemma insert_Ok_perm x d s : insert val_lt x d = Ok s -> Permutation (x :: d) s.
Proof.
  revert s. induction d as [|y d IH]; intros s; simpl.
  - by intros [= <-].
  - destruct (val_lt (fst y) (fst x)) as [[|]|]; simpl; [| by intros [= <-] | done].
    destruct (insert val_lt x d) as [r|]; simpl; [|done].
    intros [= <-]. rewrite perm_swap. constructor. by apply IH.
Qed.

Lemma isort_Ok_perm d s : isort val_lt d = Ok s -> Permutation d s.
Proof.
  revert s. induction d as [|x d IH]; intros s; simpl.
  - by intros [= <-].
  - destruct (isort val_lt d) as [s'|]; simpl; [|done].
    intros Hins. apply insert_Ok_perm in Hins. rewrite <- Hins.
    constructor. by apply IH.
Qed.

Lemma insert_Err x d e : insert val_lt x d = Err e -> e = TypeError.
Proof.
  induction d as [|y d IH]; simpl; [done|].
  destruct (val_lt (fst y) (fst x)) as [[|]|e'] eqn:E; simpl.
  - destruct (insert val_lt x d); simpl; [done|]. intros [= <-]. by apply IH.
  - done.
  - intros [= <-]. by eapply val_lt_Err.
Qed.

Lemma isort_Err d e : isort val_lt d = Err e -> e = TypeError.
Proof.
  induction d as [|x d IH]; simpl; [done|].
  destruct (isort val_lt d) as [s'|e'] eqn:E; simpl.
  - apply insert_Err.
  - intros [= <-]. by apply IH.
Qed.

(** A sort that returns has compared every key with another one, so the
    keys are of one kind unless there is at most one. *)
Lemma isort_Ok_one_kind d s :
  isort val_lt d = Ok s -> (length d <= 1)%nat \/ numbers d \/ strings d.
Proof.
  revert s. induction d as [|x d IH]; intros s; simpl; [left; lia|].
  destruct (isort val_lt d) as [s'|] eqn:E; simpl; [|done].
  intros Hins. destruct d as [|y d]; [left; simpl; lia|]. right.
  pose proof (isort_Ok_perm _ _ E) as Hperm.
  destruct s' as [|z s'].
  { apply Permutation_length in Hperm. discriminate Hperm. }
  assert (Hz : In z (y :: d)).
  { apply (Permutation_in _ (Permutation_sym Hperm)). by left. }
  simpl in Hins.
  destruct (val_lt (fst z) (fst x)) as [b|] eqn:Hlt; [|done].
  apply val_lt_Ok_kind in Hlt.
  assert (Hrest : numbers (y :: d) \/ strings (y :: d)).
  { destruct (IH _ eq_refl) as [Hlen|Hkind]; [|done].
    destruct d; [|simpl in Hlen; lia].
    destruct Hz as [->|[]].
    destruct Hlt as [[Hzn _]|[Hzs _]]; [left | right]; by intros ? [<-|[]]. }
  destruct Hlt as [[Hzn Hxn]|[Hzs Hxs]], Hrest as [Hn|Hs].
  - left. by intros ? [<-|?]; [|apply Hn].
  - destruct (number_not_string (fst z)); [done | by apply Hs].
  - destruct (number_not_string (fst z)); [by apply Hn | done].
  - right. by intros ? [<-|?]; [|apply Hs].
Qed.
End IsortRuns.

(** Over entries that all have the key, with values of the modelled kinds,
    [order_by] returns exactly when there is at most one entry or the values
    are all numbers or all strings, and raises [TypeError] otherwise. *)
Lemma order_by_runs_iff
    (h : heap) (q : Query.t) (key : string) (direction : option string) :
  (forall kv, In kv (Query._data q) -> exists v, getitem h (snd kv) key = Ok v) ->
  ((exists q', Query.order_by h q key direction = Ok q')
   <-> (length (Query._data q) <= 1)%nat \/ sortable h key (Query._data q))
  /\ (~ ((length (Query._data q) <= 1)%nat \/ sortable h key (Query._data q)) ->
      Query.order_by h q key direction = Err TypeError).
Proof.
  intros Hkeys.
  set (its := Query._data q).
  set (reverse := match direction with
                  | Some d => String.eqb d "DESCENDING"
                  | None => false
                  end).
  set (dec := fun kv : string * value => (key_of h key kv, kv)).
  set (d := if reverse then rev (map dec its) else map dec its).
  assert (Hdec : decorate (fun doc => getitem h (snd doc) key) its = Ok (map dec its)).
  { apply (decorate_ok _ (key_of h key)). intros kv Hkv.
    destruct (Hkeys kv Hkv) as [v Hv]. unfold key_of. by rewrite Hv. }
  assert (Hrun : Query.order_by h q key direction =
                 match isort val_lt d with
                 | Ok s => Ok (Query.Make (Dict.of_items
                             (map snd (if reverse then rev s else s))))
                 | Err e => Err e
                 end).
  { unfold Query.order_by, sorted. fold reverse its. rewrite Hdec. simpl.
    unfold d. destruct reverse; by destruct (isort val_lt _). }
  assert (Hkinds : (forall x, In x d -> is_number (fst x)) \/
                   (forall x, In x d -> is_string (fst x)) -> sortable h key its).
  { assert (Hin : forall kv, In kv its -> In (dec kv) d).
    { intros kv Hkv. unfold d. destruct reverse.
      - apply in_rev. rewrite rev_involutive. by apply in_map.
      - by apply in_map. }
    intros [Hn|Hs]; [left | right]; intros kv Hkv;
      destruct (Hkeys kv Hkv) as [v Hv]; exists v; (split; [done|]).
    + specialize (Hn _ (Hin kv Hkv)). simpl in Hn. unfold key_of in Hn.
      by rewrite Hv in Hn.
    + specialize (Hs _ (Hin kv Hkv)). simpl in Hs. unfold key_of in Hs.
      by rewrite Hv in Hs. }
  assert (Hlen : length d = length its).
  { unfold d. destruct reverse; by rewrite ?length_rev, length_map. }
  assert (Hiff : (exists q', Query.order_by h q key direction = Ok q')
                 <-> (length its <= 1)%nat \/ sortable h key its).
  { rewrite Hrun. split.
    - intros [q' Hq']. destruct (isort val_lt d) as [s|] eqn:E; [|done].
      destruct (isort_Ok_one_kind _ _ E) as [Hl|Hk]; [left; lia | right; by apply Hkinds].
    - intros [Hl|Hsort].
      + assert (Hd : d = [] \/ exists x, d = [x]).
        { destruct d as [|x [|y d']]; simpl in Hlen; [by left | right; by exists x | lia]. }
        destruct Hd as [->|[x ->]]; simpl; eauto.
      + enough (exists s, isort val_lt d = Ok s) as [s ->] by eauto.
        assert (Hd : d = map dec (if reverse then rev its else its)).
        { unfold d. destruct reverse; [by rewrite map_rev | done]. }
        rewrite Hd. destruct Hsort as [Hn|Hs].
        * eexists. apply (isort_ok val_lt below (key_of h key) is_number val_lt_number).
          apply Forall_forall. intros kv Hkv. apply list_elem_of_In in Hkv.
          assert (Hkv' : In kv its).
          { destruct reverse; [by apply in_rev in Hkv | done]. }
          destruct (Hn kv Hkv') as (v & Hv & Hnum). unfold key_of. by rewrite Hv.
        * eexists. apply (isort_ok val_lt below (key_of h key) is_string val_lt_string).
          apply Forall_forall. intros kv Hkv. apply list_elem_of_In in Hkv.
          assert (Hkv' : In kv its).
          { destruct reverse; [by apply in_rev in Hkv | done]. }
          destruct (Hs kv Hkv') as (v & Hv & Hstr). unfold key_of. by rewrite Hv. }
  split; [done|].
  intros Hnot.
  destruct (Query.order_by h q key direction) as [q'|e] eqn:Eo.
  - destruct Hnot. apply Hiff. eauto.
  - destruct (isort val_lt d) as [s|e'] eqn:E; [done|].
    injection Hrun as ->. f_equal. by eapply isort_Err.
Qed.

(** X12.  Over entries that all have the key: with at most one entry
    [order_by] returns the query as it is, since a single entry is never
    compared, whatever its value; with two or more entries it raises
    [TypeError] when a value under the key is [None] or a mapping, and when
    one value is a number and another a string. *)
Theorem X12_order_by_needs_one_kind
    (h : heap) (q : Query.t) (key : string) (direction : option string) :
  (forall kv, In kv (Query._data q) -> exists v, getitem h (snd kv) key = Ok v) ->
  ((length (Query._data q) <= 1)%nat -> Query.order_by h q key direction = Ok q)
  /\ ((2 <= length (Query._data q))%nat ->
      (exists kv, In kv (Query._data q)
         /\ (key_of h key kv = VAtom ANone \/ exists l, key_of h key kv = VRef l)) ->
      Query.order_by h q key direction = Err TypeError)
  /\ ((exists kv kv', In kv (Query._data q) /\ In kv' (Query._data q)
         /\ is_number (key_of h key kv) /\ is_string (key_of h key kv')) ->
      Query.order_by h q key direction = Err TypeError).
Proof.
  intros Hkeys.
  destruct (order_by_runs_iff h q key direction Hkeys) as [_ Hraise].
  assert (Hkind : forall kv, In kv (Query._data q) ->
            (forall v, getitem h (snd kv) key = Ok v -> v = key_of h key kv)).
  { intros kv _ v Hv. unfold key_of. by rewrite Hv. }
  assert (Hnum : forall kv, In kv (Query._data q) ->
            sortable h key (Query._data q) ->
            is_number (key_of h key kv) \/ is_string (key_of h key kv)).
  { intros kv Hkv [Hn|Hs]; [left | right].
    - destruct (Hn kv Hkv) as (v & Hv & Hnv). by rewrite <- (Hkind kv Hkv v Hv).
    - destruct (Hs kv Hkv) as (v & Hv & Hsv). by rewrite <- (Hkind kv Hkv v Hv). }
  split_and!.
  - intros Hlen. unfold Query.order_by.
    generalize (match direction with
                | Some d => String.eqb d "DESCENDING"
                | None => false
                end). intros reverse. unfold sorted.
    destruct q as [[|kv [|kv' its]]]; simpl in *; [by destruct reverse | | lia].
    destruct (Hkeys kv) as [v ->]; [by left|]. simpl.
    destruct kv. by destruct reverse.
  - intros Hlen (kv & Hkv & Hbad). apply Hraise. intros [Hle|Hsort]; [lia|].
    destruct (Hnum kv Hkv Hsort) as [(a & n & Ha & Hn)|[s Hs]], Hbad as [Hnone|[l Hl]].
    + rewrite Hnone in Ha. injection Ha as <-. discriminate Hn.
    + rewrite Hl in Ha. discriminate Ha.
    + rewrite Hnone in Hs. discriminate Hs.
    + rewrite Hl in Hs. discriminate Hs.
  - intros (kv & kv' & Hkv & Hkv' & Hn & Hs). apply Hraise. intros [Hle|[Hnum'|Hstr']].
    + destruct (Query._data q) as [|x [|y its]]; simpl in *; [done | | lia].
      destruct Hkv as [<-|[]], Hkv' as [<-|[]].
      by apply (number_not_string (key_of h key x)).
    + destruct (Hnum' kv' Hkv') as (v & Hv & Hnv).
      rewrite (Hkind kv' Hkv' v Hv) in Hnv.
      by apply (number_not_string (key_of h key kv')).
    + destruct (Hstr' kv Hkv) as (v & Hv & Hsv).
      rewrite (Hkind kv Hkv v Hv) in Hsv.
      by apply (number_not_string (key_of h key kv)).
Qed.

(** ** The order of [get()] *)

Lemma sorted_by_id_unique (l1 l2 : pydict) :
  StronglySorted (fun a b => String.ltb (fst a) (fst b) = true) l1 ->
  StronglySorted (fun a b => String.ltb (fst a) (fst b) = true) l2 ->
  Permutation l1 l2 -> l1 = l2.
Proof.
  intros H1. revert l2. induction H1 as [|a l1 Hs1 IH Ha]; intros l2 H2 Hperm.
  - by apply Permutation_nil in Hperm.
  - destruct H2 as [|b l2 Hs2 Hb].
    { symmetry in Hperm. by apply Permutation_nil in Hperm. }
    assert (Hab : a = b).
    { assert (Hin_a : In a (b :: l2)) by (apply (Permutation_in _ Hperm); by left).
      assert (Hin_b : In b (a :: l1)).
      { apply (Permutation_in _ (Permutation_sym Hperm)). by left. }
      destruct Hin_a as [<-|Hin_a]; [done|]. destruct Hin_b as [<-|Hin_b]; [done|].
      rewrite Forall_forall in Ha, Hb.
      pose proof (Ha b (proj2 (list_elem_of_In _ _) Hin_b)) as Hlt1.
      pose proof (Hb a (proj2 (list_elem_of_In _ _) Hin_a)) as Hlt2.
      apply String_ltb_asym in Hlt1. congruence. }
    subst b. f_equal. apply IH; [done|]. by apply Permutation_cons_inv in Hperm.
Qed.

Lemma sort_by_id_sorted (l : pydict) :
  Dict.wf l ->
  StronglySorted (fun a b => String.ltb (fst a) (fst b) = true)
    (sort_by String.ltb fst l).
Proof.
  intros Hwf. apply StronglySorted_strict.
  - eapply Dict_wf_Permutation; [apply sort_by_perm | done].
  - apply (sort_by_sorted String.ltb fst (fun _ => True)).
    + intros x y _ _. apply String_ltb_asym.
    + intros x y z _ _ _. apply String_ltb_neg_trans.
    + by apply Forall_forall.
Qed.

(** X13.  What [CollectionReference.get()] returns does not depend on the
    order in which the documents were written: two collections whose
    mappings hold the same entries, in any order, give the same list of
    snapshots. *)
Theorem X13_get_ignores_write_order
    (h h' : heap) (c c' : CollectionReference.t) (p p' : loc) :
  get_by_path h (CollectionReference._data c) (CollectionReference._path c)
    = Ok (VRef p) ->
  get_by_path h' (CollectionReference._data c') (CollectionReference._path c')
    = Ok (VRef p') ->
  Dict.wf (deref h p) ->
  Permutation (deref h p) (deref h' p') ->
  CollectionReference.get h c = CollectionReference.get h' c'.
Proof.
  intros Hres Hres' Hwf Hperm.
  assert (Hwf' : Dict.wf (deref h' p')) by by apply (Dict_wf_Permutation (deref h p)).
  assert (Heq : sort_by String.ltb fst (deref h p) = sort_by String.ltb fst (deref h' p')).
  { apply sorted_by_id_unique; try by apply sort_by_id_sorted.
    by rewrite <- !sort_by_perm. }
  unfold CollectionReference.get. rewrite Hres, Hres'. cbn -[Query.__init__].
  rewrite !Query_init_plain by done. by rewrite Heq.
Qed.

(** ** The root store *)

Lemma Query_init_frame (h h' : heap) (v : value) :
  (forall l, deref h' l = deref h l) ->
  Query.__init__ h' (Query.Plain v) = Query.__init__ h (Query.Plain v).
Proof.
  intros Hsame. unfold Query.__init__, Query.items.
  destruct v as [a|l]; [done|]. by rewrite Hsame.
Qed.

Lemma collection_get_frame (h h' : heap) (c : CollectionReference.t) :
  (forall l, deref h' l = deref h l) ->
  CollectionReference.get h' c = CollectionReference.get h c.
Proof.
  intros Hsame. unfold CollectionReference.get.
  rewrite (get_by_path_frame h h') by (intros; apply Hsame).
  destruct (get_by_path h _ _) as [v|]; [|done]. cbn -[Query.__init__].
  by rewrite (Query_init_frame h h').
Qed.

(** Reading a collection whose mapping is empty. *)
Lemma collection_get_empty (h : heap) (root l : loc) (path : list string) :
  get_by_path h root path = Ok (VRef l) ->
  deref h l = [] ->
  CollectionReference.get h (CollectionReference.Make root path) = Ok [].
Proof.
  intros Hres Hempty. unfold CollectionReference.get. simpl.
  rewrite Hres. simpl. by rewrite Hempty.
Qed.

(** X14.  [MockFirestore.collection(name)] always returns the handle at
    path [[name]].  When the store holds [name] it writes nothing; when it
    does not, it adds [name] as the last entry of the store, with an empty
    mapping, so that [get()] on the handle returns no snapshot.  The other
    collections are left alone, and asking again writes nothing. *)
Theorem X14_root_collection
    (w : world) (fs : MockFirestore.t) (name : string) :
  let root := MockFirestore._data fs in
  let c := CollectionReference.Make root [name] in
  is_Some (objects w !! root) ->
  exists w',
    MockFirestore.collection fs name w = (Ok c, w')
    /\ MockFirestore.collection fs name w' = (Ok c, w')
    /\ (Dict.contains name (deref (objects w) root) = true -> w' = w)
    /\ (Dict.contains name (deref (objects w) root) = false ->
        Dict.keys (deref (objects w') root) = Dict.keys (deref (objects w) root) ++ [name]
        /\ CollectionReference.get (objects w') c = Ok [])
    /\ (forall other, other <> name ->
          Dict.get other (deref (objects w') root)
          = Dict.get other (deref (objects w) root)).
Proof.
  intros root c Hlive.
  assert (Hrun : forall w0, MockFirestore.collection fs name w0 =
    (Ok c, if Dict.contains name (deref (objects w0) root) then w0
           else with_objects
                  (<[root := Dict.setitem name (VRef (fresh (dom (objects w0))))
                               (deref (objects w0) root)]>
                     (<[fresh (dom (objects w0)) := []]> (objects w0))) w0)).
  { intros w0.
    unfold MockFirestore.collection, mbind, M_bind, reading, mret, M_ret. simpl.
    fold root. destruct (Dict.contains name (deref (objects w0) root)); [done|].
    unfold new_dict, setitem. simpl.
    by rewrite deref_new_empty by apply fresh_unused. }
  rewrite Hrun.
  destruct (Dict.contains name (deref (objects w) root)) eqn:Hin.
  - exists w. split_and!; try done. by rewrite Hrun, Hin.
  - set (l := fresh (dom (objects w))).
    assert (Hl : objects w !! l = None) by apply fresh_unused.
    assert (Hne : root <> l).
    { intros E. destruct Hlive as [x Hx]. rewrite E in Hx. by rewrite Hl in Hx. }
    eexists. split; [reflexivity|]. split_and!.
    + rewrite Hrun. simpl. rewrite deref_insert_eq.
      unfold Dict.contains. by rewrite Dict_get_setitem_eq.
    + done.
    + intros _. simpl. rewrite deref_insert_eq. split.
      * rewrite Dict_keys_setitem, Hin. done.
      * apply (collection_get_empty _ _ l).
        -- unfold get_by_path. simpl.
           by rewrite deref_insert_eq, Dict_get_setitem_eq.
        -- by rewrite deref_insert_ne, deref_insert_eq.
    + intros other Hother. simpl. rewrite deref_insert_eq.
      apply Dict_get_setitem_ne. congruence.
Qed.

(** X15.  [reset()] points the store at a new, empty root and clears
    nothing: every mapping reads as before, so a collection handle obtained
    before the reset still returns its documents, while any collection
    obtained from the store after the reset is empty. *)
Theorem X15_reset_starts_an_empty_store
    (w : world) (fs : MockFirestore.t) (name : string) :
  exists fs' w1 c w2,
    MockFirestore.reset fs w = (Ok fs', w1)
    /\ (forall l, deref (objects w1) l = deref (objects w) l)
    /\ (forall c0, CollectionReference.get (objects w1) c0
                   = CollectionReference.get (objects w) c0)
    /\ deref (objects w1) (MockFirestore._data fs') = []
    /\ MockFirestore.collection fs' name w1 = (Ok c, w2)
    /\ CollectionReference.get (objects w2) c = Ok [].
Proof.
  set (r := fresh (dom (objects w))).
  set (h1 := <[r := []]> (objects w)).
  set (l := fresh (dom h1)).
  assert (Hr : objects w !! r = None) by apply fresh_unused.
  assert (Hl : h1 !! l = None) by apply fresh_unused.
  assert (Hne : r <> l).
  { intros E. rewrite <- E in Hl. unfold h1 in Hl. by rewrite lookup_insert_eq in Hl. }
  assert (Hsame : forall l0, deref h1 l0 = deref (objects w) l0).
  { intros l0. by apply deref_new_empty. }
  assert (Hr1 : deref h1 r = []).
  { unfold h1. by rewrite deref_insert_eq. }
  exists (MockFirestore.Make r), (with_objects h1 w),
    (CollectionReference.Make r [name]),
    (with_objects (<[r := [(name, VRef l)]]> (<[l := []]> h1)) w).
  split_and!.
  - done.
  - done.
  - intros c0. by apply collection_get_frame.
  - done.
  - unfold MockFirestore.collection, mbind, M_bind, reading, mret, M_ret. simpl.
    rewrite Hr1. simpl.
    unfold new_dict, setitem. simpl. fold l.
    rewrite deref_insert_ne, Hr1 by done. by destruct w.
  - apply (collection_get_empty _ _ l).
    + unfold get_by_path. simpl. rewrite deref_insert_eq. simpl.
      by rewrite String.eqb_refl.
    + simpl. by rewrite deref_insert_ne, deref_insert_eq.
Qed.

(** ** Sub-collections *)

(** X16.  A sub-collection is a field of its document.  When the
    document's mapping lacks [name], [collection(name)] stores a new empty
    mapping under [name], as the last field: the sub-collection reads as
    empty, and the document now has [exists == True], even if its mapping
    was empty before.  When the mapping has [name], nothing is written. *)
Theorem X16_subcollection_is_a_field
    (w : world) (root doc : loc) (path : list string) (name : string) :
  let d := DocumentReference.Make root path in
  let c := CollectionReference.Make root (path ++ [name]) in
  get_by_path (objects w) root path = Ok (VRef doc) ->
  doc ∉ visited (objects w) (VRef root) path ->
  is_Some (objects w !! doc) ->
  (Dict.contains name (deref (objects w) doc) = true ->
     DocumentReference_collection d name w = (Ok c, w))
  /\ (Dict.contains name (deref (objects w) doc) = false ->
      exists w',
        DocumentReference_collection d name w = (Ok c, w')
        /\ Dict.keys (deref (objects w') doc)
           = Dict.keys (deref (objects w) doc) ++ [name]
        /\ CollectionReference.get (objects w') c = Ok []
        /\ exists s,
             DocumentReference.get (objects w') d = Ok s
             /\ DocumentSnapshot.exists_ (objects w') s = true).
Proof.
  intros d c Hres Hroute Hlive.
  assert (Hrun : DocumentReference_collection d name w =
    (Ok c, if Dict.contains name (deref (objects w) doc) then w
           else with_objects
                  (<[doc := Dict.setitem name (VRef (fresh (dom (objects w))))
                              (deref (objects w) doc)]>
                     (<[fresh (dom (objects w)) := []]> (objects w))) w)).
  { unfold DocumentReference_collection, d, mbind, M_bind, reading, mret, M_ret. simpl.
    rewrite Hres. simpl.
    destruct (Dict.contains name (deref (objects w) doc)); [done|].
    unfold new_dict. simpl.
    rewrite (set_by_path_snoc _ _ doc); simpl.
    - by rewrite deref_new_empty by apply fresh_unused.
    - by rewrite get_by_path_new_empty by apply fresh_unused. }
  rewrite Hrun. split.
  - by intros ->.
  - intros Hout. rewrite Hout. eexists. split; [reflexivity|]. simpl.
    set (l := fresh (dom (objects w))).
    assert (Hl : objects w !! l = None) by apply fresh_unused.
    assert (Hne : doc <> l).
    { intros E. destruct Hlive as [x Hx]. rewrite E in Hx. by rewrite Hl in Hx. }
    assert (Hres' : get_by_path
              (<[doc := Dict.setitem name (VRef l) (deref (objects w) doc)]>
                 (<[l := []]> (objects w))) root path = Ok (VRef doc)).
    { by rewrite get_by_path_materialized. }
    split_and!.
    + by rewrite deref_insert_eq, Dict_keys_setitem, Hout.
    + apply (collection_get_empty _ _ l).
      * rewrite get_by_path_snoc, Hres'. simpl.
        by rewrite deref_insert_eq, Dict_get_setitem_eq.
      * by rewrite deref_insert_ne, deref_insert_eq.
    + eexists. unfold DocumentReference.get, d. simpl. rewrite Hres'. simpl.
      split; [reflexivity|]. unfold DocumentSnapshot.exists_. simpl.
      rewrite deref_insert_eq.
      rewrite Dict_setitem_new by (apply Dict_get_None; unfold Dict.contains in Hout;
        by destruct (Dict.get name (deref (objects w) doc))).
      by destruct (deref (objects w) doc).
Qed.

(** ** Writing and reading back *)

(** X17.  What [set(data)] writes, [get()] reads back: the snapshot's
    [to_dict()] is [data] with its mapping as it was written, and its
    [exists] is true exactly when that mapping is not empty, so a document
    set to [{}] reads as absent. *)
Theorem X17_set_then_get
    (w : world) (root p data : loc) (cpath : list string) (name : string) :
  let d := DocumentReference.Make root (cpath ++ [name]) in
  get_by_path (objects w) root cpath = Ok (VRef p) ->
  p ∉ visited (objects w) (VRef root) cpath ->
  data <> p ->
  exists w' s,
    DocumentReference.set d data false w = (Ok tt, w')
    /\ DocumentReference.get (objects w') d = Ok s
    /\ DocumentSnapshot.to_dict s = VRef data
    /\ mapping (objects w') (DocumentSnapshot.to_dict s) = Some (deref (objects w) data)
    /\ DocumentSnapshot.exists_ (objects w') s
       = match deref (objects w) data with [] => false | _ :: _ => true end.
Proof.
  intros d Hres Hroute Hne. do 2 eexists. split_and!.
  - unfold DocumentReference.set, d. simpl. by apply set_by_path_snoc.
  - unfold DocumentReference.get, d. simpl.
    rewrite get_by_path_snoc, get_by_path_insert, Hres by done. simpl.
    by rewrite deref_insert_eq, Dict_get_setitem_eq.
  - done.
  - simpl. by rewrite deref_insert_ne.
  - unfold DocumentSnapshot.exists_. simpl. by rewrite deref_insert_ne.
Qed.

Lemma Dict_setitem_same (k : string) (v : value) (d : pydict) :
  Dict.wf d -> In (k, v) d -> Dict.setitem k v d = d.
Proof.
  unfold Dict.wf, Dict.keys. induction d as [|[k0 v0] d IH]; simpl; [done|].
  intros Hnd Hin. apply NoDup_cons in Hnd as [Hk0 Hnd].
  destruct (String.eqb_spec k k0) as [->|Hne].
  - destruct Hin as [[= ->]|Hin]; [done|]. exfalso. apply Hk0.
    apply list_elem_of_In. change k0 with (fst (k0, v)). by apply in_map.
  - destruct Hin as [[= -> ->]|Hin]; [done|]. by rewrite IH.
Qed.

Lemma Dict_update_same (d other : pydict) :
  Dict.wf d -> (forall kv, In kv other -> In kv d) -> Dict.update d other = d.
Proof.
  unfold Dict.update. intros Hwf.
  induction other as [|[k v] o IH]; intros Hsub; simpl; [done|].
  rewrite Dict_setitem_same; [|done | apply Hsub; by left].
  apply IH. intros kv Hkv. apply Hsub. by right.
Qed.

Lemma Dict_update_idem (d other : pydict) :
  Dict.wf d -> Dict.wf other ->
  Dict.update (Dict.update d other) other = Dict.update d other.
Proof.
  intros Hd Ho. apply Dict_update_same; [by apply Dict_wf_update|].
  intros [k v] Hkv. apply Dict_get_Some_In.
  by rewrite Dict_get_update, (Dict_In_get k v other).
Qed.

(** X18.  [update(data)] is idempotent: a second [update] with the same
    [data] succeeds and writes nothing new, also when [data] is the
    document's own mapping. *)
Theorem X18_update_twice
    (w : world) (root doc data : loc) (path : list string) :
  let d := DocumentReference.Make root path in
  get_by_path (objects w) root path = Ok (VRef doc) ->
  doc ∉ visited (objects w) (VRef root) path ->
  Dict.wf (deref (objects w) doc) ->
  Dict.wf (deref (objects w) data) ->
  exists w1,
    DocumentReference.update d data w = (Ok tt, w1)
    /\ DocumentReference.update d data w1 = (Ok tt, w1).
Proof.
  intros d Hres Hroute Hdoc Hdata. eexists. split.
  - by apply update_run.
  - rewrite (update_run _ d doc); simpl.
    + destruct w as [h rnd n]. unfold with_objects. simpl in *. f_equal. f_equal.
      rewrite deref_insert_eq, insert_insert_eq. f_equal.
      destruct (decide (doc = data)) as [<-|Hne].
      * rewrite deref_insert_eq. apply Dict_update_same; [by apply Dict_wf_update|].
        by intros kv Hkv.
      * rewrite deref_insert_ne by done. by apply Dict_update_idem.
    + by rewrite get_by_path_insert.
Qed.

(** ** Generated ids and the collection's own queries *)

(** X19.  [document()] without a name first looks the collection up, and
    raises the error of that lookup without drawing anything; otherwise it
    is [document(name)] for the string made of the next twenty draws, with
    the generator moved past them. *)
Theorem X19_document_without_name
    (w : world) (c : CollectionReference.t) :
  (forall e name,
     get_by_path (objects w) (CollectionReference._data c) (CollectionReference._path c)
       = Err e ->
     CollectionReference.document c name w = (Err e, w))
  /\ (forall coll,
        get_by_path (objects w) (CollectionReference._data c) (CollectionReference._path c)
          = Ok coll ->
        CollectionReference.document c None w
        = CollectionReference.document c (Some (random_string (rand w) (drawn w)))
            (World (objects w) (rand w) (drawn w + 20)%nat)).
Proof.
  split.
  - intros e name He.
    unfold CollectionReference.document, mbind, M_bind, reading. by rewrite He.
  - intros coll Hc.
    unfold CollectionReference.document, mbind, M_bind, reading,
      generate_random_string, mret, M_ret. simpl. by rewrite Hc.
Qed.

(** X20.  The query methods of a collection work on its entries sorted by
    id: [where] and [order_by] are the query's own over those entries, and
    [limit(n)] keeps the [n] documents with the smallest ids for [n] from
    [0] to [sys.maxsize], and raises [ValueError] for any other [n]. *)
Theorem X20_collection_queries_start_sorted
    (h : heap) (c : CollectionReference.t) (p : loc) :
  get_by_path h (CollectionReference._data c) (CollectionReference._path c)
    = Ok (VRef p) ->
  Dict.wf (deref h p) ->
  exists its,
    Permutation (deref h p) its
    /\ StronglySorted (fun a b => String.ltb (fst a) (fst b) = true) its
    /\ (forall field op val,
          CollectionReference.where_ h c field op val
          = Query.where_ h (Query.Make its) field op val)
    /\ (forall key direction,
          CollectionReference.order_by h c key direction
          = Query.order_by h (Query.Make its) key direction)
    /\ (forall n, 0 <= n <= Query.maxsize ->
          CollectionReference.limit h c n = Ok (Query.Make (firstn (Z.to_nat n) its)))
    /\ (forall n, n < 0 \/ Query.maxsize < n ->
          CollectionReference.limit h c n = Err ValueError).
Proof.
  intros Hres Hwf. exists (sort_by String.ltb fst (deref h p)).
  assert (Hwf' : Dict.wf (sort_by String.ltb fst (deref h p))).
  { eapply Dict_wf_Permutation; [apply sort_by_perm | done]. }
  split_and!.
  - apply sort_by_perm.
  - by apply sort_by_id_sorted.
  - intros field op val. unfold CollectionReference.where_.
    rewrite Hres. cbn -[Query.__init__ Query.where_].
    by rewrite Query_init_plain.
  - intros key direction. unfold CollectionReference.order_by.
    rewrite Hres. cbn -[Query.__init__ Query.order_by].
    by rewrite Query_init_plain.
  - intros n Hn. unfold CollectionReference.limit.
    rewrite Hres. cbn -[Query.__init__ Query.limit].
    rewrite Query_init_plain by done. cbn -[Query.limit].
    by rewrite limit_run.
  - intros n Hn. unfold CollectionReference.limit.
    rewrite Hres. cbn -[Query.__init__ Query.limit].
    rewrite Query_init_plain by done. cbn -[Query.limit].
    unfold Query.limit, Query.islice.
    destruct (Z.ltb_spec n 0); [done|].
    destruct (Z.ltb_spec Query.maxsize n); [done | lia].
Qed.

(** ** The further properties at the scenarios *)

(** X2 at the collection [c] of the one-document store, writing [b]. *)
Lemma X2_set_then_get_at_scenario :
  let w := Scenario.after Scenario.one_document in
  get_by_path (objects w) 0%nat ["c"] = Ok (VRef 1%nat)
  /\ exists w', set_by_path 0%nat ["c"; "b"] (VAtom (AInt 1)) w = (Ok tt, w').
Proof.
  intros w.
  assert (H1 : get_by_path (objects w) 0%nat ["c"] = Ok (VRef 1%nat))
    by (vm_compute; reflexivity).
  split; [assumption|].
  destruct (X2_set_then_get w 0%nat 1%nat ["c"] "b" (VAtom (AInt 1)) H1)
    as (w' & Hset & _).
  exists w'. exact Hset.
Defined.

(** X3 at the document [a] of the one-document store. *)
Lemma X3_delete_removes_one_id_at_scenario :
  let w := Scenario.after Scenario.one_document in
  (get_by_path (objects w) 0%nat ["c"] = Ok (VRef 1%nat)
   /\ Dict.wf (deref (objects w) 1%nat)
   /\ Dict.contains "a" (deref (objects w) 1%nat) = true)
  /\ exists w',
       DocumentReference.delete (DocumentReference.Make 0%nat ["c"; "a"]) w = (Ok tt, w').
Proof.
  intros w.
  assert (H1 : get_by_path (objects w) 0%nat ["c"] = Ok (VRef 1%nat))
    by (vm_compute; reflexivity).
  assert (H2 : Dict.wf (deref (objects w) 1%nat)) by by_computation.
  assert (H3 : Dict.contains "a" (deref (objects w) 1%nat) = true)
    by (vm_compute; reflexivity).
  split; [repeat split; assumption|].
  destruct (X3_delete_removes_one_id w 0%nat 1%nat ["c"] "a" H1 H2 H3)
    as (w' & Hdel & _).
  exists w'. exact Hdel.
Defined.

(** X4 at the document [z], which the one-document store does not hold. *)
Lemma X4_delete_absent_raises_at_scenario :
  let w := Scenario.after Scenario.one_document in
  (get_by_path (objects w) 0%nat ["c"] = Ok (VRef 1%nat)
   /\ Dict.wf (deref (objects w) 1%nat)
   /\ (1%nat ∉ visited (objects w) (VRef 0%nat) ["c"])
   /\ Dict.contains "z" (deref (objects w) 1%nat) = false)
  /\ DocumentReference.delete (DocumentReference.Make 0%nat ["c"; "z"]) w
     = (Err KeyError, w).
Proof.
  intros w.
  assert (H1 : get_by_path (objects w) 0%nat ["c"] = Ok (VRef 1%nat))
    by (vm_compute; reflexivity).
  assert (H2 : Dict.wf (deref (objects w) 1%nat)) by by_computation.
  assert (H3 : 1%nat ∉ visited (objects w) (VRef 0%nat) ["c"]) by by_computation.
  assert (H4 : Dict.contains "z" (deref (objects w) 1%nat) = false)
    by (vm_compute; reflexivity).
  split; [repeat split; assumption|].
  destruct (X4_delete_absent_raises w 0%nat 1%nat ["c"] "z" H1 H2 H3) as [Habs _].
  exact (Habs H4).
Defined.

(** X5 at the document [a] of the one-document store. *)
Lemma X5_document_is_idempotent_at_scenario :
  let w := Scenario.after Scenario.one_document in
  (get_by_path (objects w) 0%nat ["c"] = Ok (VRef 1%nat)
   /\ (1%nat ∉ visited (objects w) (VRef 0%nat) ["c"])
   /\ Dict.contains "a" (deref (objects w) 1%nat) = true)
  /\ CollectionReference.document (CollectionReference.Make 0%nat ["c"]) (Some "a") w
     = (Ok (DocumentReference.Make 0%nat ["c"; "a"]), w).
Proof.
  intros w.
  assert (H1 : get_by_path (objects w) 0%nat ["c"] = Ok (VRef 1%nat))
    by (vm_compute; reflexivity).
  assert (H2 : 1%nat ∉ visited (objects w) (VRef 0%nat) ["c"]) by by_computation.
  assert (H3 : Dict.contains "a" (deref (objects w) 1%nat) = true)
    by (vm_compute; reflexivity).
  split; [repeat split; assumption|].
  destruct (X5_document_is_idempotent w 0%nat 1%nat ["c"] "a" H1 H2) as [Hsame _].
  exact (Hsame H3).
Defined.

(** X6 at the collection of the four numbered documents. *)
Lemma X6_list_documents_at_scenario :
  let w := Scenario.after Scenario.numbers in
  get_by_path (objects w) 0%nat ["nums"] = Ok (VRef 1%nat)
  /\ CollectionReference.list_documents (CollectionReference.Make 0%nat ["nums"]) None w
     = (Ok (map (fun k => DocumentReference.Make 0%nat (["nums"] ++ [k]))
              (Dict.keys (deref (objects w) 1%nat))), w).
Proof.
  intros w.
  assert (H1 : get_by_path (objects w) 0%nat ["nums"] = Ok (VRef 1%nat))
    by (vm_compute; reflexivity).
  split; [assumption|].
  exact (X6_list_documents w 0%nat 1%nat ["nums"] None H1).
Defined.

(** X7 at the id [z], new to the one-document store. *)
Lemma X7_add_after_document_at_scenario :
  let w := Scenario.after Scenario.one_document in
  let c := CollectionReference.Make 0%nat ["c"] in
  (get_by_path (objects w) 0%nat ["c"] = Ok (VRef 1%nat)
   /\ (1%nat ∉ visited (objects w) (VRef 0%nat) ["c"])
   /\ is_Some (objects w !! 1%nat))
  /\ exists w1,
       CollectionReference.document c (Some "z") w
         = (Ok (DocumentReference.Make 0%nat ["c"; "z"]), w1)
       /\ CollectionReference.add tt c 2%nat (Some "z") w1 = (Err AlreadyExists, w1).
Proof.
  intros w c.
  assert (H1 : get_by_path (objects w) 0%nat ["c"] = Ok (VRef 1%nat))
    by (vm_compute; reflexivity).
  assert (H2 : 1%nat ∉ visited (objects w) (VRef 0%nat) ["c"]) by by_computation.
  assert (H3 : is_Some (objects w !! 1%nat)) by (eexists; vm_compute; reflexivity).
  split; [repeat split; assumption|].
  destruct (X7_add_after_document tt w 0%nat 1%nat 2%nat ["c"] "z" H1 H2 H3)
    as (w1 & Hdoc & Hadd & _).
  exists w1. split; assumption.
Defined.

(** X8 at the id [z], which the one-document store does not hold. *)
Lemma X8_set_creates_update_does_not_at_scenario :
  let w := Scenario.after Scenario.one_document in
  (get_by_path (objects w) 0%nat ["c"] = Ok (VRef 1%nat)
   /\ Dict.contains "z" (deref (objects w) 1%nat) = false)
  /\ DocumentReference.update (DocumentReference.Make 0%nat ["c"; "z"]) 2%nat w
     = (Err KeyError, w).
Proof.
  intros w.
  assert (H1 : get_by_path (objects w) 0%nat ["c"] = Ok (VRef 1%nat))
    by (vm_compute; reflexivity).
  assert (H2 : Dict.contains "z" (deref (objects w) 1%nat) = false)
    by (vm_compute; reflexivity).
  split; [split; assumption|].
  destruct (X8_set_creates_update_does_not w 0%nat 1%nat 2%nat ["c"] "z" H1 H2)
    as [Hup _].
  exact Hup.
Defined.

(** X9 at [limit(2)] over the four numbered documents. *)
Lemma X9_limit_keeps_a_prefix_at_scenario :
  let h := objects (Scenario.after Scenario.numbers) in
  let q := Scenario.numbers_query in
  Dict.wf (Query._data q)
  /\ Query.limit h q 2 = Ok (Query.Make (firstn (Z.to_nat 2) (Query._data q))).
Proof.
  intros h q.
  assert (Hwf : Dict.wf (Query._data q)) by by_computation.
  split; [assumption|].
  destruct (X9_limit_keeps_a_prefix h q 2 Hwf) as (_ & Hkeep & _).
  apply Hkeep. unfold Query.maxsize. lia.
Defined.

(** X10 at [where('n', '>', 3).where('n', '<', 10)] over the four numbered
    documents. *)
Lemma X10_where_chain_at_scenario :
  let h := objects (Scenario.after Scenario.numbers) in
  let q := Scenario.numbers_query in
  let q1 := Query.Make [("b", VRef 5); ("c", VRef 9); ("d", VRef 3)]%nat in
  let q2 := Query.Make [("c", VRef 9); ("d", VRef 3)]%nat in
  (Dict.wf (Query._data q)
   /\ Query.where_ h q "n" ">" (AInt 3) = Ok q1
   /\ Query.where_ h q1 "n" "<" (AInt 10) = Ok q2)
  /\ Query._data q2
     = List.filter (fun kv => satisfies h "n" ">" (AInt 3) kv
                              && satisfies h "n" "<" (AInt 10) kv) (Query._data q).
Proof.
  intros h q q1 q2.
  assert (Hwf : Dict.wf (Query._data q)) by by_computation.
  assert (H1 : Query.where_ h q "n" ">" (AInt 3) = Ok q1) by (vm_compute; reflexivity).
  assert (H2 : Query.where_ h q1 "n" "<" (AInt 10) = Ok q2) by (vm_compute; reflexivity).
  split; [repeat split; assumption|].
  destruct (X10_where_chain h q q1 q2 "n" ">" "n" "<" (AInt 3) (AInt 10) Hwf H1 H2)
    as [Hboth _].
  exact Hboth.
Defined.

(** X11 at [where('n', '==', 5)] over the four numbered documents. *)
Lemma X11_where_equal_is_total_at_scenario :
  let h := objects (Scenario.after Scenario.numbers) in
  let q := Scenario.numbers_query in
  (Dict.wf (Query._data q)
   /\ forall kv, In kv (Query._data q) -> exists x, getitem h (snd kv) "n" = Ok x)
  /\ Query.where_ h q "n" "==" (AInt 5)
     = Ok (Query.Make
             (List.filter (fun kv => val_eq (key_of h "n" kv) (AInt 5)) (Query._data q))).
Proof.
  intros h q.
  assert (Hwf : Dict.wf (Query._data q)) by by_computation.
  assert (Hall : forall kv, In kv (Query._data q) ->
                   exists x, getitem h (snd kv) "n" = Ok x).
  { intros kv Hkv. simpl in Hkv.
    destruct Hkv as [<-|[<-|[<-|[<-|[]]]]]; eexists; vm_compute; reflexivity. }
  split; [split; assumption|].
  exact (X11_where_equal_is_total h q "n" (AInt 5) Hwf Hall).
Defined.

(** X12 at [order_by('n')] over documents [a: {n: 3}] and [b: {n: 'x'}]. *)
Lemma X12_order_by_needs_one_kind_at_scenario :
  let h := objects (Scenario.after Scenario.two_kinds) in
  let q := Scenario.two_kinds_query in
  (forall kv, In kv (Query._data q) -> exists v, getitem h (snd kv) "n" = Ok v)
  /\ Query.order_by h q "n" None = Err TypeError.
Proof.
  intros h q.
  assert (Hall : forall kv, In kv (Query._data q) ->
                   exists v, getitem h (snd kv) "n" = Ok v).
  { intros kv Hkv. simpl in Hkv.
    destruct Hkv as [<-|[<-|[]]]; eexists; vm_compute; reflexivity. }
  split; [assumption|].
  destruct (X12_order_by_needs_one_kind h q "n" None Hall) as (_ & _ & Hmixed).
  apply Hmixed. exists ("a", VRef 3%nat), ("b", VRef 5%nat).
  split; [left; reflexivity|]. split; [right; left; reflexivity|].
  split.
  - exists (AInt 3), 3. split; reflexivity.
  - exists "x". reflexivity.
Defined.

(** X13 at the four numbered documents and the same collection with its
    mapping in reverse order. *)
Lemma X13_get_ignores_write_order_at_scenario :
  let h := objects (Scenario.after Scenario.numbers) in
  let h' := <[1%nat := rev (deref h 1%nat)]> h in
  let c := CollectionReference.Make 0%nat ["nums"] in
  (get_by_path h 0%nat ["nums"] = Ok (VRef 1%nat)
   /\ get_by_path h' 0%nat ["nums"] = Ok (VRef 1%nat)
   /\ Dict.wf (deref h 1%nat)
   /\ Permutation (deref h 1%nat) (deref h' 1%nat))
  /\ CollectionReference.get h c = CollectionReference.get h' c.
Proof.
  intros h h' c.
  assert (H1 : get_by_path h 0%nat ["nums"] = Ok (VRef 1%nat))
    by (vm_compute; reflexivity).
  assert (H2 : get_by_path h' 0%nat ["nums"] = Ok (VRef 1%nat))
    by (vm_compute; reflexivity).
  assert (H3 : Dict.wf (deref h 1%nat)) by by_computation.
  assert (H4 : Permutation (deref h 1%nat) (deref h' 1%nat)).
  { unfold h'. rewrite deref_insert_eq. apply Permutation_rev. }
  split; [repeat split; assumption|].
  exact (X13_get_ignores_write_order h h' c c 1%nat 1%nat H1 H2 H3 H4).
Defined.

(** X14 at the one-document store and its collection [c]. *)
Lemma X14_root_collection_at_scenario :
  let w := Scenario.after Scenario.one_document in
  let fs := MockFirestore.Make 0%nat in
  is_Some (objects w !! 0%nat)
  /\ exists w',
       MockFirestore.collection fs "c" w = (Ok (CollectionReference.Make 0%nat ["c"]), w').
Proof.
  intros w fs.
  assert (H1 : is_Some (objects w !! 0%nat)) by (eexists; vm_compute; reflexivity).
  split; [assumption|].
  destruct (X14_root_collection w fs "c" H1) as (w' & Hcol & _).
  exists w'. exact Hcol.
Defined.

(** X16 at the document [a] of the one-document store and the
    sub-collection [sub]. *)
Lemma X16_subcollection_is_a_field_at_scenario :
  let w := Scenario.after Scenario.one_document in
  let d := DocumentReference.Make 0%nat ["c"; "a"] in
  (get_by_path (objects w) 0%nat ["c"; "a"] = Ok (VRef 3%nat)
   /\ (3%nat ∉ visited (objects w) (VRef 0%nat) ["c"; "a"])
   /\ is_Some (objects w !! 3%nat)
   /\ Dict.contains "sub" (deref (objects w) 3%nat) = false)
  /\ exists w',
       DocumentReference_collection d "sub" w
         = (Ok (CollectionReference.Make 0%nat (["c"; "a"] ++ ["sub"])), w')
       /\ CollectionReference.get (objects w')
            (CollectionReference.Make 0%nat (["c"; "a"] ++ ["sub"])) = Ok [].
Proof.
  intros w d.
  assert (H1 : get_by_path (objects w) 0%nat ["c"; "a"] = Ok (VRef 3%nat))
    by (vm_compute; reflexivity).
  assert (H2 : 3%nat ∉ visited (objects w) (VRef 0%nat) ["c"; "a"]) by by_computation.
  assert (H3 : is_Some (objects w !! 3%nat)) by (eexists; vm_compute; reflexivity).
  assert (H4 : Dict.contains "sub" (deref (objects w) 3%nat) = false)
    by (vm_compute; reflexivity).
  split; [repeat split; assumption|].
  destruct (X16_subcollection_is_a_field w 0%nat 3%nat ["c"; "a"] "sub" H1 H2 H3)
    as [_ Hnew].
  destruct (Hnew H4) as (w' & Hrun & _ & Hget & _).
  exists w'. split; assumption.
Defined.

(** X17 at the one-document store, writing the empty mapping as [b]. *)
Lemma X17_set_then_get_at_scenario :
  let w := Scenario.after Scenario.one_document in
  let d := DocumentReference.Make 0%nat ["c"; "b"] in
  (get_by_path (objects w) 0%nat ["c"] = Ok (VRef 1%nat)
   /\ (1%nat ∉ visited (objects w) (VRef 0%nat) ["c"])
   /\ 2%nat <> 1%nat)
  /\ exists w' s,
       DocumentReference.set d 2%nat false w = (Ok tt, w')
       /\ DocumentReference.get (objects w') d = Ok s.
Proof.
  intros w d.
  assert (H1 : get_by_path (objects w) 0%nat ["c"] = Ok (VRef 1%nat))
    by (vm_compute; reflexivity).
  assert (H2 : 1%nat ∉ visited (objects w) (VRef 0%nat) ["c"]) by by_computation.
  assert (H3 : 2%nat <> 1%nat) by discriminate.
  split; [repeat split; assumption|].
  destruct (X17_set_then_get w 0%nat 1%nat 2%nat ["c"] "b" H1 H2 H3)
    as (w' & s & Hset & Hget & _).
  exists w', s. split; assumption.
Defined.

(** X18 at the document [a] of the one-document store, merged with
    itself. *)
Lemma X18_update_twice_at_scenario :
  let w := Scenario.after Scenario.one_document in
  let d := DocumentReference.Make 0%nat ["c"; "a"] in
  (get_by_path (objects w) 0%nat ["c"; "a"] = Ok (VRef 3%nat)
   /\ (3%nat ∉ visited (objects w) (VRef 0%nat) ["c"; "a"])
   /\ Dict.wf (deref (objects w) 3%nat))
  /\ exists w1,
       DocumentReference.update d 3%nat w = (Ok tt, w1)
       /\ DocumentReference.update d 3%nat w1 = (Ok tt, w1).
Proof.
  intros w d.
  assert (H1 : get_by_path (objects w) 0%nat ["c"; "a"] = Ok (VRef 3%nat))
    by (vm_compute; reflexivity).
  assert (H2 : 3%nat ∉ visited (objects w) (VRef 0%nat) ["c"; "a"]) by by_computation.
  assert (H3 : Dict.wf (deref (objects w) 3%nat)) by by_computation.
  split; [repeat split; assumption|].
  exact (X18_update_twice w 0%nat 3%nat 3%nat ["c"; "a"] H1 H2 H3 H3).
Defined.

(** X20 at the collection of the four numbered documents. *)
Lemma X20_collection_queries_start_sorted_at_scenario :
  let h := objects (Scenario.after Scenario.numbers) in
  let c := CollectionReference.Make 0%nat ["nums"] in
  (get_by_path h 0%nat ["nums"] = Ok (VRef 1%nat) /\ Dict.wf (deref h 1%nat))
  /\ exists its,
       Permutation (deref h 1%nat) its
       /\ CollectionReference.limit h c 2 = Ok (Query.Make (firstn (Z.to_nat 2) its)).
Proof.
  intros h c.
  assert (H1 : get_by_path h 0%nat ["nums"] = Ok (VRef 1%nat))
    by (vm_compute; reflexivity).
  assert (H2 : Dict.wf (deref h 1%nat)) by by_computation.
  split; [split; assumption|].
  destruct (X20_collection_queries_start_sorted h c 1%nat H1 H2)
    as (its & Hperm & _ & _ & _ & Hlimit & _).
  exists its. split; [assumption|]. apply Hlimit. unfold Query.maxsize. lia.
Defined.
